(** * email2signal: the SMTP handler of [app.py]

    A shallow embedding of [EmailHandler]: classification of a recipient at
    RCPT, partition of the recipients and the two deliveries at DATA, and
    the payload of the REST call.

    - Strings are lists of characters; [re] is embedded as a small
      backtracking matcher that lists its results in the order Python tries
      them, so that the head of the list is the match Python reports.
    - The libraries the handler calls ([email], [html2text], [requests],
      [urllib], [sendmail]) are fields of a record of collaborators.
    - A call to the outside is an event of a trace; an exception that is not
      caught is an outcome of its own, beside a returned value.

    The second part proves the matcher sound and complete for the language
    of a pattern, and then the properties of the handler. *)

From Stdlib Require Import Ascii String.
From Stdlib Require Import List Bool Arith Lia ZArith Permutation.
Import ListNotations.

Set Implicit Arguments.

(** ** Python strings *)

(** A Python [str] is a sequence of characters.  Characters are 8-bit code
    points here; on that range the class [\d] of [re] is exactly ['0'..'9']. *)
Definition str := list ascii.

(** String literals of the source. *)
Definition lit (x : string) : str := list_ascii_of_string x.

Definition ascii_eqb (a b : ascii) : bool := Ascii.eqb a b.
Arguments ascii_eqb : simpl never.

Fixpoint str_eqb (a b : str) : bool :=
  match a, b with
  | [], [] => true
  | x :: a', y :: b' => ascii_eqb x y && str_eqb a' b'
  | _, _ => false
  end.

(** [s.startswith(p)] *)
Fixpoint startswith (s p : str) {struct p} : bool :=
  match p with
  | [] => true
  | x :: p' =>
      match s with
      | [] => false
      | y :: s' => ascii_eqb x y && startswith s' p'
      end
  end.

(** [s.find(sub)]: index of the first occurrence, if any. *)
Fixpoint find (s sub : str) : option nat :=
  if startswith s sub then Some 0
  else match s with
       | [] => None
       | _ :: s' => option_map S (find s' sub)
       end.

(** [sub in s] *)
Definition contains (sub s : str) : bool :=
  match find s sub with Some _ => true | None => false end.

(** [s.split(sep, 1)[-1]]: the text after the first occurrence of [sep],
    or all of [s] when [sep] does not occur. *)
Definition split1_last (s sep : str) : str :=
  match find s sep with
  | Some i => skipn (i + length sep) s
  | None => s
  end.

(** [s.replace(old, empty)] for a one-character [old]: every [old] goes. *)
Definition remove_char (c : ascii) (s : str) : str :=
  filter (fun x => negb (ascii_eqb x c)) s.

(** ** The fragment of [re] used by the handler *)

Module Re.

(** Patterns.  [Grp i r] is the [i]-th capturing group; quantifiers are the
    greedy ones. *)
Inductive regex : Type :=
| Eps
| Chr (c : ascii)
| Any
| Cls (p : ascii -> bool)
| Cat (r1 r2 : regex)
| Alt (r1 r2 : regex)
| Opt (r : regex)
| Star (r : regex)
| Plus (r : regex)
| Rep (n : nat) (r : regex)
| Grp (i : nat) (r : regex).

(** A literal run of characters. *)
Fixpoint Lit (l : str) : regex :=
  match l with
  | [] => Eps
  | c :: l' => Cat (Chr c) (Lit l')
  end.

(** Captured groups, most recent binding first. *)
Definition caps := list (nat * str).

Fixpoint get (i : nat) (c : caps) : option str :=
  match c with
  | [] => None
  | (j, v) :: c' => if Nat.eqb i j then Some v else get i c'
  end.

Definition newline : ascii := "010"%char.
Definition carriage_return : ascii := "013"%char.

Definition in_range (lo hi c : ascii) : bool :=
  (nat_of_ascii lo <=? nat_of_ascii c) && (nat_of_ascii c <=? nat_of_ascii hi).

(** [\d] *)
Definition digit (c : ascii) : bool := in_range "0" "9" c.
(** [[a-zA-Z]] *)
Definition letter (c : ascii) : bool := in_range "a" "z" c || in_range "A" "Z" c.

(** A backtracking state: what is left of the subject and the groups. *)
Definition state := (str * caps)%type.

(** Greedy iteration of [step]: one more round first, then stop.  A round
    that consumes nothing is not repeated. *)
Fixpoint iterate (step : str -> caps -> list state) (fuel : nat)
         (s : str) (c : caps) : list state :=
  match fuel with
  | 0 => [(s, c)]
  | S f =>
      flat_map (fun st : state =>
                  if length (fst st) <? length s
                  then iterate step f (fst st) (snd st) else [])
               (step s c)
      ++ [(s, c)]
  end.

(** All the ways [r] matches a prefix of [s], in the order a backtracking
    matcher tries them: the head is the match Python reports. *)
Fixpoint run (r : regex) (s : str) (c : caps) : list state :=
  match r with
  | Eps => [(s, c)]
  | Chr a =>
      match s with
      | x :: s' => if ascii_eqb x a then [(s', c)] else []
      | [] => []
      end
  | Any =>
      match s with
      | x :: s' => if ascii_eqb x newline then [] else [(s', c)]
      | [] => []
      end
  | Cls p =>
      match s with
      | x :: s' => if p x then [(s', c)] else []
      | [] => []
      end
  | Cat r1 r2 =>
      flat_map (fun st : state => run r2 (fst st) (snd st)) (run r1 s c)
  | Alt r1 r2 => run r1 s c ++ run r2 s c
  | Opt r1 => run r1 s c ++ [(s, c)]
  | Star r1 => iterate (run r1) (S (length s)) s c
  | Plus r1 =>
      flat_map (fun st : state =>
                  iterate (run r1) (S (length (fst st))) (fst st) (snd st))
               (run r1 s c)
  | Rep n r1 =>
      (fix rep (k : nat) (s0 : str) (c0 : caps) : list state :=
         match k with
         | 0 => [(s0, c0)]
         | S k' => flat_map (fun st : state => rep k' (fst st) (snd st))
                            (run r1 s0 c0)
         end) n s c
  | Grp i r1 =>
      map (fun st : state =>
             (fst st, (i, firstn (length s - length (fst st)) s) :: snd st))
          (run r1 s c)
  end.

(** A match object: its span in the subject and its groups. *)
Record Match : Type := mkMatch {
  m_start : nat;
  m_end : nat;
  m_groups : caps
}.

(** [match.group(i)] for [i >= 1] *)
Definition group (m : Match) (i : nat) : option str := get i (m_groups m).

(** The match anchored at the current position, if any. *)
Definition match_here (r : regex) (pos : nat) (s : str) : option Match :=
  match run r s [] with
  | (s', c) :: _ => Some (mkMatch pos (pos + (length s - length s')) c)
  | [] => None
  end.

Fixpoint search_from (r : regex) (pos : nat) (s : str) : option Match :=
  match match_here r pos s with
  | Some m => Some m
  | None =>
      match s with
      | [] => None
      | _ :: s' => search_from r (S pos) s'
      end
  end.

(** [re.search(r, s)]: the leftmost match. *)
Definition search (r : regex) (s : str) : option Match := search_from r 0 s.

(** Scan for [re.findall]: [skip] characters of the last match are still to
    be passed over; after an empty match the scan moves one character on. *)
Fixpoint findall_scan (r : regex) (skip : nat) (s : str) : list str :=
  match skip with
  | S k =>
      match s with
      | [] => []
      | _ :: s' => findall_scan r k s'
      end
  | 0 =>
      match match_here r 0 s with
      | Some m =>
          match get 1 (m_groups m) with
          | Some g => [g]
          | None => [[]]
          end ++
          match s with
          | [] => []
          | _ :: s' => findall_scan r (pred (m_end m)) s'
          end
      | None =>
          match s with
          | [] => []
          | _ :: s' => findall_scan r 0 s'
          end
      end
  end.

(** [re.findall(r, s)] for a pattern with one capturing group: the text of
    group 1 of every non-overlapping match, left to right. *)
Definition findall (r : regex) (s : str) : list str := findall_scan r 0 s.

End Re.

(** ** Data of the handler *)

(** [aiosmtpd.smtp.Envelope], the fields the handler touches. *)
Record Envelope : Type := mkEnvelope {
  mail_from : str;
  rcpt_tos : list str;
  content : str
}.

(** The [config] dictionary built by [amain]; every key is always present. *)
Record Config : Type := mkConfig {
  signal_rest_url : str;
  sender_number : str;
  smtp_host : str;
  smtp_user : str;
  smtp_passwd : str;
  smtp_port : str
}.

(** Values stored in the REST payload. *)
Inductive json : Type :=
| JStr (s : str)
| JList (l : list str).

(** A Python [dict] with string keys, in insertion order. *)
Definition dict := list (str * json).

Fixpoint dict_get (k : str) (d : dict) : option json :=
  match d with
  | [] => None
  | (k', v) :: d' => if str_eqb k k' then Some v else dict_get k d'
  end.

(** [d[k] = v] *)
Fixpoint dict_set (k : str) (v : json) (d : dict) : dict :=
  match d with
  | [] => [(k, v)]
  | (k', v') :: d' =>
      if str_eqb k k' then (k, v) :: d' else (k', v') :: dict_set k v d'
  end.

(** Exceptions that cross the handler. *)
Inductive exn : Type :=
| TypeError
| LookupError
| ValueError
| ConnectionError.

Inductive outcome (A : Type) : Type :=
| Returned (a : A)
| Raised (e : exn).
Arguments Returned {A} a.
Arguments Raised {A} e.

(** What the handler does to the outside world. *)
Inductive event : Type :=
| Post (url : str) (headers : list (str * str)) (data : dict)
| SendMail (host : str) (port : Z) (user passwd : str) (envelope : Envelope).

(** A chunk returned by [email.header.decode_header]. *)
Inductive chunk : Type :=
| Text (s : str)
| Bytes (b : str).

(** The libraries and services behind the handler. *)
Record Collaborators : Type := mkCollaborators {
  (** [message_from_bytes(content, policy=default).get_body(('html', 'plain'))]
      followed by [get_content()]; [None] when there is no such part *)
  get_body : str -> option str;
  (** [mail.get('Subject')] *)
  get_subject : str -> option str;
  (** [email.header.decode_header]; it raises on [None] *)
  decode_header : option str -> outcome (list (chunk * option str));
  (** [bytes.decode(encoding)] *)
  decode : str -> str -> outcome str;
  (** [html2text.html2text] *)
  html2text : str -> str;
  (** [urllib.parse.urljoin] *)
  urljoin : str -> str -> str;
  (** [requests.request("POST", url, headers=..., data=json.dumps(payload))]:
      the status code of the response, or the transport's exception *)
  request_post : str -> list (str * str) -> dict -> outcome Z;
  (** [int(...)] on a string *)
  int_of_str : str -> outcome Z;
  (** [sendmail.send_mail] *)
  send_mail : str -> Z -> str -> str -> Envelope -> str
}.

(** Computations that log events and may raise. *)
Definition M (A : Type) : Type := (outcome A * list event)%type.

Definition ret {A : Type} (a : A) : M A := (Returned a, []).

Definition bind {A B : Type} (m : M A) (k : A -> M B) : M B :=
  match m with
  | (Returned a, t) => let (r, t') := k a in (r, t ++ t')
  | (Raised e, t) => (Raised e, t)
  end.

Definition lift {A : Type} (o : outcome A) : M A := (o, []).

Definition emit (e : event) : M unit := (Returned tt, [e]).

Notation "x <- m ;; k" := (bind m (fun x => k))
  (at level 61, m at next level, right associativity).

Definition result {A : Type} (m : M A) : outcome A := fst m.
Definition trace {A : Type} (m : M A) : list event := snd m.

(** ** The handler *)

Definition quote : ascii := "034"%char.
Definition backslash : ascii := "092"%char.

(** [[A-Za-z\d+/]] *)
Definition b64_char (c : ascii) : bool :=
  Re.letter c || Re.digit c || ascii_eqb c "+" || ascii_eqb c "/".

(** [[a-zA-Z0-9+/=\n\r]] *)
Definition uri_payload_char (c : ascii) : bool :=
  Re.letter c || Re.digit c || ascii_eqb c "+" || ascii_eqb c "/"
  || ascii_eqb c "=" || ascii_eqb c Re.newline || ascii_eqb c Re.carriage_return.

Import Re.

Record EmailHandler : Type := mkEmailHandler {
  receiver_regex : regex;
  subject_regex : regex;
  image_regex : regex;
  config : Config
}.

(** [EmailHandler.__init__].  The three patterns, piece by piece:
    - receiver: group 1 is an optional [+] and one or more [\d]; then
      [@signal], any character but a newline, [localdomain];
    - subject: [Subject: ], group 1 is any run of non-newline characters,
      then a newline;
    - image: [Content-Type: image/png; name=], a quoted run of non-newline
      characters, one or more newlines; group 1 is any number of
      four-character base64 blocks or newlines, and an optional padded
      block (two characters and [==], or three and [=]). *)
Definition init (cfg : Config) : EmailHandler :=
  {| receiver_regex :=
       Cat (Grp 1 (Cat (Opt (Chr "+")) (Plus (Cls digit))))
           (Cat (Lit (lit "@signal")) (Cat Any (Lit (lit "localdomain"))));
     subject_regex :=
       Cat (Lit (lit "Subject: ")) (Cat (Grp 1 (Star Any)) (Chr newline));
     image_regex :=
       Cat (Lit (lit "Content-Type: image/png; name="))
        (Cat (Chr quote) (Cat (Star Any) (Cat (Chr quote)
          (Cat (Plus (Chr newline))
            (Grp 1
               (Cat (Star (Alt (Rep 4 (Cls b64_char)) (Chr newline)))
                    (Opt (Alt (Cat (Rep 2 (Cls b64_char)) (Lit (lit "==")))
                              (Cat (Rep 3 (Cls b64_char)) (Lit (lit "=")))))))))));
     config := cfg |}.

(** [envelope.rcpt_tos.append(x)] *)
Definition append_rcpt (envelope : Envelope) (x : str) : Envelope :=
  {| mail_from := mail_from envelope;
     rcpt_tos := rcpt_tos envelope ++ [x];
     content := content envelope |}.

(** [handle_RCPT]: the SMTP response and the envelope afterwards.  The
    [except] branch is the case where group 1 cannot be retrieved. *)
Definition handle_RCPT (self : EmailHandler) (envelope : Envelope)
           (address : str) : str * Envelope :=
  match search (receiver_regex self) address with
  | Some m =>
      match group m 1 with
      | None => (lit "500 Malformed receiver address", envelope)
      | Some number =>
          let number :=
            if negb (startswith address (lit "+"))
            then lit "+" ++ number else number in
          (lit "250 OK", append_rcpt envelope number)
      end
  | None => (lit "250 OK", append_rcpt envelope address)
  end.

(** One round of the loop of [handle_DATA] over [envelope.rcpt_tos]. *)
Definition bucket (acc : list str * list str) (addr : str)
  : list str * list str :=
  if startswith addr (lit "+")
  then (fst acc ++ [addr], snd acc)
  else (fst acc, snd acc ++ [addr]).

(** [(signal_numbers, mail_addresses)] after the loop. *)
Definition partition_rcpts (rcpts : list str) : list str * list str :=
  fold_left bucket rcpts ([], []).

(** The marker searched for in the body. *)
Definition doctype : str := lit "<!DOCTYPE html ".

(** The local [image_regex] of [send_signal]: [data:image/], one or more letters,
    [;base64,]; group 1 is one or more of [a-zA-Z0-9+/=], newline and
    carriage return. *)
Definition data_uri_regex : regex :=
  Cat (Lit (lit "data:image/"))
      (Cat (Plus (Cls letter))
           (Cat (Lit (lit ";base64,")) (Grp 1 (Plus (Cls uri_payload_char))))).

(** The two [replace] calls on a match: newlines go, then carriage
    returns. *)
Definition clean_image (img : str) : str :=
  remove_char carriage_return (remove_char newline img).

Section Handler.

Variable W : Collaborators.

(** [header_decode] *)
Definition header_decode (header : option str) : outcome str :=
  match decode_header W header with
  | Raised e => Raised e
  | Returned chunks =>
      fold_left
        (fun (hdr : outcome str) (p : chunk * option str) =>
           match hdr with
           | Raised e => Raised e
           | Returned h =>
               match fst p with
               | Text t => Returned (h ++ t)
               | Bytes b =>
                   let encoding :=
                     match snd p with
                     | Some (x :: e) => x :: e
                     | _ => lit "us-ascii"
                     end in
                   match decode W b encoding with
                   | Returned t => Returned (h ++ t)
                   | Raised e => Raised e
                   end
               end
           end)
        chunks (Returned [])
  end.

(** What is appended to [msg] after the subject line. *)
Definition body_text (body : str) : str :=
  if contains doctype body
  then html2text W (doctype ++ split1_last body doctype)
  else body.

(** The text sent as [message]. *)
Definition message_text (subject body : str) : str :=
  (subject ++ [carriage_return; newline]) ++ body_text body.

(** The dictionary [payload] as it stands at the REST call. *)
Definition build_payload (self : EmailHandler) (subject body : str)
           (signal_receivers : list str) : dict :=
  let payload := [] in
  let payload := dict_set (lit "message") (JStr (message_text subject body)) payload in
  let payload :=
    dict_set (lit "number")
             (JStr (remove_char backslash (sender_number (config self)))) payload in
  let payload := dict_set (lit "recipients") (JList signal_receivers) payload in
  let matches := findall data_uri_regex body in
  match matches with
  | _ :: _ =>
      dict_set (lit "base64_attachments") (JList (map clean_image matches)) payload
  | [] => payload
  end.

(** [send_signal].  The [print] calls are left out; the request is logged
    before its answer is known. *)
Definition send_signal (self : EmailHandler) (envelope : Envelope)
           (signal_receivers : list str) : M bool :=
  let body :=
    match get_body W (content envelope) with
    | Some b => b
    | None => []
    end in
  subject <- lift (header_decode (get_subject W (content envelope))) ;;
  let payload := build_payload self subject body signal_receivers in
  let headers := [(lit "Content-Type", lit "application/json")] in
  let url := urljoin W (signal_rest_url (config self)) (lit "v2/send") in
  _ <- emit (Post url headers payload) ;;
  status_code <- lift (request_post W url headers payload) ;;
  ret (Z.eqb status_code 201).

(** [handle_DATA]: the response (or the exception that escapes), the
    calls made, and the envelope afterwards.  The [print] calls are left
    out. *)
Definition handle_DATA (self : EmailHandler) (envelope : Envelope)
  : M str * Envelope :=
  let (signal_numbers, mail_addresses) := partition_rcpts (rcpt_tos envelope) in
  let signalled : M bool :=
    match signal_numbers with
    | _ :: _ => send_signal self envelope signal_numbers
    | [] => ret true
    end in
  match signalled with
  | (Raised e, t) => ((Raised e, t), envelope)
  | (Returned false, t) =>
      ((Returned (lit "554 Sending signal message has failed"), t), envelope)
  | (Returned true, t) =>
      match mail_addresses with
      | [] => ((Returned (lit "250 Message accepted for delivery"), t), envelope)
      | _ :: _ =>
          let envelope' :=
            {| mail_from := mail_from envelope;
               rcpt_tos := mail_addresses;
               content := content envelope |} in
          let cfg := config self in
          match int_of_str W (smtp_port cfg) with
          | Raised e => ((Raised e, t), envelope')
          | Returned port =>
              ((Returned (send_mail W (smtp_host cfg) port (smtp_user cfg)
                                    (smtp_passwd cfg) envelope'),
                t ++ [SendMail (smtp_host cfg) port (smtp_user cfg)
                               (smtp_passwd cfg) envelope']),
               envelope')
          end
      end
  end.

End Handler.

(** ** What a pattern denotes *)

(** [matches r w]: the word [w] belongs to the language of [r]. *)
Inductive matches : regex -> str -> Prop :=
| MEps : matches Eps []
| MChr a : matches (Chr a) [a]
| MAny a : ascii_eqb a newline = false -> matches Any [a]
| MCls p a : p a = true -> matches (Cls p) [a]
| MCat r1 r2 w1 w2 :
    matches r1 w1 -> matches r2 w2 -> matches (Cat r1 r2) (w1 ++ w2)
| MAltL r1 r2 w : matches r1 w -> matches (Alt r1 r2) w
| MAltR r1 r2 w : matches r2 w -> matches (Alt r1 r2) w
| MOptS r w : matches r w -> matches (Opt r) w
| MOptN r : matches (Opt r) []
| MStar0 r : matches (Star r) []
| MStarS r w1 w2 :
    matches r w1 -> matches (Star r) w2 -> matches (Star r) (w1 ++ w2)
| MPlus r w1 w2 :
    matches r w1 -> matches (Star r) w2 -> matches (Plus r) (w1 ++ w2)
| MRep0 r : matches (Rep 0 r) []
| MRepS r n w1 w2 :
    matches r w1 -> matches (Rep n r) w2 -> matches (Rep (S n) r) (w1 ++ w2)
| MGrp i r w : matches r w -> matches (Grp i r) w.

(** Some substring of [s] belongs to the language of [r]. *)
Definition occurs (r : regex) (s : str) : Prop :=
  exists pre w post, s = pre ++ w ++ post /\ matches r w.

(** [+ddd] or [ddd], with at least one digit. *)
Definition contact_digits (w : str) : Prop :=
  exists ds, ds <> [] /\ Forall (fun a => digit a = true) ds /\
             (w = ds \/ w = "+"%char :: ds).

(** Whether a pattern contains a capturing group. *)
Fixpoint has_grp (r : regex) : bool :=
  match r with
  | Eps | Chr _ | Any | Cls _ => false
  | Cat r1 r2 | Alt r1 r2 => has_grp r1 || has_grp r2
  | Opt r1 | Star r1 | Plus r1 | Rep _ r1 => has_grp r1
  | Grp _ _ => true
  end.

(** The match a backtracking matcher reports at the head of [s]. *)
Definition first (r : regex) (s : str) (c : caps) : option state :=
  hd_error (run r s c).

(** A run of characters of class [p] cannot go on into [s]. *)
Definition stops (p : ascii -> bool) (s : str) : Prop :=
  match s with
  | [] => True
  | x :: _ => p x = false
  end.

(** Every character of [w] is of class [p]. *)
Definition all_in (p : ascii -> bool) (w : str) : Prop :=
  Forall (fun a => p a = true) w.

(** ** Vocabulary of the statements *)

(** The test of the loop of [handle_DATA]. *)
Definition starts_plus (addr : str) : bool := startswith addr (lit "+").

Definition is_send_mail (e : event) : bool :=
  match e with SendMail _ _ _ _ _ => true | Post _ _ _ => false end.

Definition is_post (e : event) : bool :=
  match e with Post _ _ _ => true | SendMail _ _ _ _ _ => false end.

(** The relay was not called. *)
Definition relay_not_invoked (t : list event) : Prop :=
  forall e, In e t -> is_send_mail e = false.

(** The request [send_signal] submits once the subject is decoded. *)
Definition signal_url (W : Collaborators) (self : EmailHandler) : str :=
  urljoin W (signal_rest_url (config self)) (lit "v2/send").

Definition signal_headers : list (str * str) :=
  [(lit "Content-Type", lit "application/json")].

Definition body_of (W : Collaborators) (envelope : Envelope) : str :=
  match get_body W (content envelope) with
  | Some b => b
  | None => []
  end.

(** The answer of the REST endpoint to the request of this transaction. *)
Definition rest_answer (W : Collaborators) (self : EmailHandler)
           (envelope : Envelope) (subject : str) : outcome Z :=
  request_post W (signal_url W self) signal_headers
               (build_payload W self subject (body_of W envelope)
                              (filter starts_plus (rcpt_tos envelope))).

(** [sep] does not occur in [s] at any index below [n]. *)
Definition not_before (sep s : str) (n : nat) : Prop :=
  forall i, i < n -> startswith (skipn i s) sep = false.

(** No [<] of [s] is closed by a later [>]. *)
Definition tag_free (s : str) : Prop :=
  ~ exists pre mid post, s = pre ++ "<"%char :: mid ++ ">"%char :: post.

(** The text of a data URI. *)
Definition uri_head : str := lit "data:image/".

Definition data_uri (subtype payload : str) : str :=
  uri_head ++ subtype ++ lit ";base64," ++ payload.

Definition is_linebreak (a : ascii) : bool :=
  ascii_eqb a newline || ascii_eqb a carriage_return.

(** Standard base64, to say what decoding would give. *)
Definition b64_index (a : ascii) : option nat :=
  let n := nat_of_ascii a in
  if in_range "A" "Z" a then Some (n - 65)
  else if in_range "a" "z" a then Some (n - 71)
  else if digit a then Some (n + 4)
  else if ascii_eqb a "+" then Some 62
  else if ascii_eqb a "/" then Some 63
  else None.

Definition is_pad (a : ascii) : bool := ascii_eqb a "=".

Fixpoint b64decode (s : str) : option str :=
  match s with
  | [] => Some []
  | a :: b :: c :: d :: s' =>
      match b64_index a, b64_index b with
      | Some x, Some y =>
          let b1 := ascii_of_nat (x * 4 + y / 16) in
          match b64_index c with
          | Some z =>
              let b2 := ascii_of_nat ((y mod 16) * 16 + z / 4) in
              match b64_index d with
              | Some w =>
                  let b3 := ascii_of_nat ((z mod 4) * 64 + w) in
                  option_map (fun t => b1 :: b2 :: b3 :: t) (b64decode s')
              | None =>
                  match s' with
                  | [] => if is_pad d then Some [b1; b2] else None
                  | _ :: _ => None
                  end
              end
          | None =>
              match s' with
              | [] => if is_pad c && is_pad d then Some [b1] else None
              | _ :: _ => None
              end
          end
      | _, _ => None
      end
  | _ => None
  end.

(** ** Sample data *)

(** A converter that drops everything from a [<] to the next [>]. *)
Fixpoint strip_tags (inside : bool) (s : str) : str :=
  match s with
  | [] => []
  | a :: s' =>
      if ascii_eqb a "<" then strip_tags true s'
      else if inside then
             if ascii_eqb a ">" then strip_tags false s' else strip_tags true s'
           else a :: strip_tags false s'
  end.

(** Collaborators for a message with subject [hi] and the given body, and
    a REST endpoint with a fixed answer. *)
Definition sample_world (body : option str) (answer : outcome Z) : Collaborators :=
  {| get_body := fun _ => body;
     get_subject := fun _ => Some (lit "hi");
     decode_header := fun h =>
       match h with
       | Some x => Returned [(Text x, None)]
       | None => Raised TypeError
       end;
     decode := fun b _ => Returned b;
     html2text := strip_tags false;
     urljoin := fun base url => base ++ url;
     request_post := fun _ _ _ => answer;
     int_of_str := fun _ => Returned 587%Z;
     send_mail := fun _ _ _ _ _ => lit "250 OK" |}.

Definition with_rcpts (rcpts : list str) : Envelope :=
  {| mail_from := lit "alice@example.com";
     rcpt_tos := rcpts;
     content := lit "Subject: hi" ++ [newline; newline] ++ lit "hello" |}.

Definition sample_config : Config :=
  {| signal_rest_url := lit "http://signal:8080/";
     sender_number := lit "+4915112345678";
     smtp_host := lit "smtp.example.com";
     smtp_user := lit "gateway";
     smtp_passwd := lit "secret";
     smtp_port := lit "587" |}.

Definition sample_envelope : Envelope :=
  {| mail_from := lit "alice@example.com";
     rcpt_tos := [];
     content := lit "Subject: hi" ++ [newline; newline] ++ lit "hello" |}.

(** An HTML body with two inline images; the second payload is broken
    over two lines. *)
Definition two_image_body : str :=
  lit "<img src='" ++ data_uri (lit "png") (lit "QUJD")
  ++ lit "'><img src='"
  ++ data_uri (lit "png") (lit "REV" ++ [newline] ++ lit "G")
  ++ lit "'>".

(** A multipart message: a text part and a named PNG part in base64. *)
Definition png_part_content : str :=
  lit "Subject: hi" ++ [newline]
  ++ lit "Content-Type: multipart/mixed; boundary=b" ++ [newline; newline]
  ++ lit "--b" ++ [newline]
  ++ lit "Content-Type: text/plain" ++ [newline; newline]
  ++ lit "hello" ++ [newline]
  ++ lit "--b" ++ [newline]
  ++ lit "Content-Transfer-Encoding: base64" ++ [newline]
  ++ lit "Content-Type: image/png; name=" ++ [quote] ++ lit "a.png" ++ [quote]
  ++ [newline; newline]
  ++ lit "QUJD" ++ [newline]
  ++ lit "--b--" ++ [newline].

Definition png_part_envelope : Envelope :=
  {| mail_from := lit "alice@example.com";
     rcpt_tos := [lit "+15551234567"];
     content := png_part_content |}.

(** ** Start-up and sessions *)

(** [os.environ]: the variables that are set, with their values. *)
Definition environment := list (str * str).

(** [os.environ.get(key)] *)
Fixpoint getenv (environ : environment) (key : str) : option str :=
  match environ with
  | [] => None
  | (k, v) :: rest => if str_eqb key k then Some v else getenv rest key
  end.

(** How [amain] ends: the handler is handed to the controller, or
    [sys.exit] is called with a message. *)
Inductive startup : Type :=
| Serving (handler : EmailHandler)
| Exit (message : str).

(** The variables read with [os.environ[...]], in the order of the source. *)
Definition required_variables : list str :=
  [lit "SIGNAL_REST_URL"; lit "SENDER_NUMBER"; lit "SMTP_HOST";
   lit "SMTP_USER"; lit "SMTP_PASSWORD"].

(** [amain]: a [KeyError] on one of the five subscripts ends in [sys.exit];
    [SMTP_PORT] is read with [os.getenv] and a default. *)
Definition amain (environ : environment) : startup :=
  let missing := Exit (lit "Please set the required environment variables.") in
  match getenv environ (lit "SIGNAL_REST_URL") with
  | None => missing
  | Some url =>
  match getenv environ (lit "SENDER_NUMBER") with
  | None => missing
  | Some number =>
  match getenv environ (lit "SMTP_HOST") with
  | None => missing
  | Some host =>
  match getenv environ (lit "SMTP_USER") with
  | None => missing
  | Some user =>
  match getenv environ (lit "SMTP_PASSWORD") with
  | None => missing
  | Some passwd =>
      let port :=
        match getenv environ (lit "SMTP_PORT") with
        | Some p => p
        | None => lit "587"
        end in
      Serving (init {| signal_rest_url := url;
                       sender_number := number;
                       smtp_host := host;
                       smtp_user := user;
                       smtp_passwd := passwd;
                       smtp_port := port |})
  end end end end end.

(** The server calls [handle_RCPT] once for each recipient of a
    transaction, on the same envelope. *)
Definition rcpt_all (self : EmailHandler) (envelope : Envelope)
           (addresses : list str) : Envelope :=
  fold_left (fun env address => snd (handle_RCPT self env address))
            addresses envelope.

(** The answers given on the way. *)
Fixpoint rcpt_answers (self : EmailHandler) (envelope : Envelope)
         (addresses : list str) : list str :=
  match addresses with
  | [] => []
  | a :: rest =>
      fst (handle_RCPT self envelope a)
      :: rcpt_answers self (snd (handle_RCPT self envelope a)) rest
  end.

(** What one round of the loop of [header_decode] adds to [hdr]. *)
Definition chunk_text (W : Collaborators) (p : chunk * option str) : outcome str :=
  match fst p with
  | Text t => Returned t
  | Bytes b =>
      decode W b match snd p with
                 | Some (x :: e) => x :: e
                 | _ => lit "us-ascii"
                 end
  end.

(** One round of the loop of [header_decode], on the value of [hdr] so far. *)
Definition header_round (W : Collaborators) (hdr : outcome str)
           (p : chunk * option str) : outcome str :=
  match hdr with
  | Raised e => Raised e
  | Returned h =>
      match fst p with
      | Text t => Returned (h ++ t)
      | Bytes b =>
          match decode W b match snd p with
                           | Some (x :: e) => x :: e
                           | _ => lit "us-ascii"
                           end with
          | Returned t => Returned (h ++ t)
          | Raised e => Raised e
          end
      end
  end.

(** [[a-zA-Z0-9+/=]]: the payload class without the line breaks. *)
Definition attachment_char (c : ascii) : bool :=
  letter c || digit c || ascii_eqb c "+" || ascii_eqb c "/" || ascii_eqb c "=".

(** The envelope with only the second bucket as recipients. *)
Definition narrowed (envelope : Envelope) : Envelope :=
  {| mail_from := mail_from envelope;
     rcpt_tos := filter (fun a => negb (starts_plus a)) (rcpt_tos envelope);
     content := content envelope |}.

(** The call to the relay for this envelope. *)
Definition relay_call (self : EmailHandler) (port : Z) (envelope : Envelope)
  : event :=
  SendMail (smtp_host (config self)) port (smtp_user (config self))
           (smtp_passwd (config self)) (narrowed envelope).

(** The POST for this envelope. *)
Definition post_call (W : Collaborators) (self : EmailHandler)
           (envelope : Envelope) (subject : str) : event :=
  Post (signal_url W self) signal_headers
       (build_payload W self subject (body_of W envelope)
                      (filter starts_plus (rcpt_tos envelope))).

(** The messaging stage lets the transaction go on: there is nobody to
    message, or the message was sent and the answer was 201. *)
Definition messaging_passed (W : Collaborators) (self : EmailHandler)
           (envelope : Envelope) : Prop :=
  filter starts_plus (rcpt_tos envelope) = [] \/
  exists subject,
    header_decode W (get_subject W (content envelope)) = Returned subject /\
    rest_answer W self envelope subject = Returned 201%Z.

(** A collaborator set like [sample_world] whose [int] fails. *)
Definition bad_port_world (answer : outcome Z) : Collaborators :=
  {| get_body := fun _ => Some (lit "hello");
     get_subject := fun _ => Some (lit "hi");
     decode_header := fun h =>
       match h with
       | Some x => Returned [(Text x, None)]
       | None => Raised TypeError
       end;
     decode := fun b _ => Returned b;
     html2text := strip_tags false;
     urljoin := fun base url => base ++ url;
     request_post := fun _ _ _ => answer;
     int_of_str := fun _ => Raised ValueError;
     send_mail := fun _ _ _ _ _ => lit "250 OK" |}.

(** Collaborators whose [decode_header] yields the given chunks and whose
    [decode] knows every codec but [klingon]. *)
Definition header_world (chunks : list (chunk * option str)) : Collaborators :=
  {| get_body := fun _ => Some (lit "hello");
     get_subject := fun _ => Some (lit "hi");
     decode_header := fun _ => Returned chunks;
     decode := fun b encoding =>
       if str_eqb encoding (lit "klingon") then Raised LookupError else Returned b;
     html2text := strip_tags false;
     urljoin := fun base url => base ++ url;
     request_post := fun _ _ _ => Returned 201%Z;
     int_of_str := fun _ => Returned 587%Z;
     send_mail := fun _ _ _ _ _ => lit "250 OK" |}.

(** An environment with everything but the port. *)
Definition sample_environ : environment :=
  [(lit "SIGNAL_REST_URL", lit "http://signal:8080/");
   (lit "SENDER_NUMBER", lit "+4915112345678");
   (lit "SMTP_HOST", lit "smtp.example.com");
   (lit "SMTP_USER", lit "gateway");
   (lit "SMTP_PASSWORD", lit "secret")].

(** [sep] occurs in [noise ++ sep ++ rest] nowhere before the end of
    [noise]: every way of cutting the text around [sep] leaves at least
    [noise] in front. *)
Definition marker_first (sep noise rest : str) : Prop :=
  forall pre post, noise ++ sep ++ rest = pre ++ sep ++ post ->
                   length noise <= length pre.

(** A page whose one link has its own address as its text. *)
Definition autolink_page : str :=
  doctype ++ lit "PUBLIC><html><body>"
  ++ lit "<a href='https://example.com'>https://example.com</a>"
  ++ lit "</body></html>".

(** Collaborators whose converter does what [html2text] does with such a
    link: it writes the address between angle brackets. *)
Definition autolink_world : Collaborators :=
  {| get_body := fun _ => Some (lit "--b42 text/html " ++ autolink_page);
     get_subject := fun _ => Some (lit "hi");
     decode_header := fun h =>
       match h with
       | Some x => Returned [(Text x, None)]
       | None => Raised TypeError
       end;
     decode := fun b _ => Returned b;
     html2text := fun h =>
       if contains (lit "<a href='https://example.com'>https://example.com</a>") h
       then lit "<https://example.com>" ++ [newline; newline]
       else strip_tags false h;
     urljoin := fun base url => base ++ url;
     request_post := fun _ _ _ => Returned 201%Z;
     int_of_str := fun _ => Returned 587%Z;
     send_mail := fun _ _ _ _ _ => lit "250 OK" |}.



(** * Properties *)

(** ** The matcher against the language of a pattern *)

(** Membership in a one-element list. *)
Ltac only_one H := destruct H as [<- | []].

Section Matcher.

Lemma in_flat_map_state (f : state -> list state) (l : list state) (y : state) :
  In y (flat_map f l) -> exists x, In x l /\ In y (f x).
Proof. intro H. apply in_flat_map in H. exact H. Qed.

(** A step that only yields suffixes, iterated, only yields suffixes. *)
Lemma iterate_sound (r : regex) (step : str -> caps -> list state) :
  (forall s c st, In st (step s c) ->
                  exists w, s = w ++ fst st /\ matches r w) ->
  forall fuel s c st, In st (iterate step fuel s c) ->
                      exists w, s = w ++ fst st /\ matches (Star r) w.
Proof.
  intros Hstep fuel.
  induction fuel as [|f IH]; intros s c st Hin; simpl in Hin.
  - only_one Hin. exists []. split; [reflexivity|constructor].
  - apply in_app_or in Hin. destruct Hin as [Hin|[<-|[]]].
    + apply in_flat_map_state in Hin. destruct Hin as [x [Hx Hy]].
      destruct (length (fst x) <? length s); [|contradiction].
      destruct (Hstep _ _ _ Hx) as [w1 [E1 M1]].
      destruct (IH _ _ _ Hy) as [w2 [E2 M2]].
      exists (w1 ++ w2). split.
      * rewrite E1 at 1. rewrite E2 at 1. now rewrite app_assoc.
      * now constructor.
    + exists []. split; [reflexivity|constructor].
Qed.

(** Every state the matcher yields is a suffix of the subject, and what
    was consumed is a word of the pattern. *)
Theorem run_sound (r : regex) :
  forall s c st, In st (run r s c) ->
                 exists w, s = w ++ fst st /\ matches r w.
Proof.
  induction r as [| a | | p | r1 IH1 r2 IH2 | r1 IH1 r2 IH2 | r1 IH1
                  | r1 IH1 | r1 IH1 | n r1 IH1 | i r1 IH1];
    intros s c st Hin; cbn [run] in Hin.
  - only_one Hin. exists []. split; [reflexivity|constructor].
  - destruct s as [|x s']; [contradiction|].
    destruct (ascii_eqb x a) eqn:E; [|contradiction].
    only_one Hin. apply Ascii.eqb_eq in E. subst x.
    exists [a]. split; [reflexivity|constructor].
  - destruct s as [|x s']; [contradiction|].
    destruct (ascii_eqb x newline) eqn:E; [contradiction|].
    only_one Hin. exists [x]. split; [reflexivity|now constructor].
  - destruct s as [|x s']; [contradiction|].
    destruct (p x) eqn:E; [|contradiction].
    only_one Hin. exists [x]. split; [reflexivity|now constructor].
  - apply in_flat_map_state in Hin. destruct Hin as [x [Hx Hy]].
    destruct (IH1 _ _ _ Hx) as [w1 [E1 M1]].
    destruct (IH2 _ _ _ Hy) as [w2 [E2 M2]].
    exists (w1 ++ w2). split.
    + rewrite E1 at 1. rewrite E2 at 1. now rewrite app_assoc.
    + now constructor.
  - apply in_app_or in Hin. destruct Hin as [Hin|Hin].
    + destruct (IH1 _ _ _ Hin) as [w [E Mw]]. exists w. split; [exact E|].
      now apply MAltL.
    + destruct (IH2 _ _ _ Hin) as [w [E Mw]]. exists w. split; [exact E|].
      now apply MAltR.
  - apply in_app_or in Hin. destruct Hin as [Hin|[<-|[]]].
    + destruct (IH1 _ _ _ Hin) as [w [E Mw]]. exists w. split; [exact E|].
      now apply MOptS.
    + exists []. split; [reflexivity|apply MOptN].
  - eapply iterate_sound; [|exact Hin]. intros; eapply IH1; eassumption.
  - apply in_flat_map_state in Hin. destruct Hin as [x [Hx Hy]].
    destruct (IH1 _ _ _ Hx) as [w1 [E1 M1]].
    destruct (iterate_sound (r:=r1) (run r1) (fun s c st H => IH1 s c st H) _ _ _ _ Hy)
      as [w2 [E2 M2]].
    exists (w1 ++ w2). split.
    + rewrite E1 at 1. rewrite E2 at 1. now rewrite app_assoc.
    + now constructor.
  - revert s c st Hin. induction n as [|n IHn]; intros s c st Hin.
    + only_one Hin. exists []. split; [reflexivity|constructor].
    + apply in_flat_map_state in Hin. destruct Hin as [x [Hx Hy]].
      destruct (IH1 _ _ _ Hx) as [w1 [E1 M1]].
      destruct (IHn _ _ _ Hy) as [w2 [E2 M2]].
      exists (w1 ++ w2). split.
      * rewrite E1 at 1. rewrite E2 at 1. now rewrite app_assoc.
      * now constructor.
  - apply in_map_iff in Hin. destruct Hin as [x [<- Hx]]. simpl.
    destruct (IH1 _ _ _ Hx) as [w [E Mw]]. exists w. split; [exact E|].
    now constructor.
Qed.

(** The fuel of [run] is always enough: more fuel changes nothing. *)
Lemma iterate_fuel (step : str -> caps -> list state) :
  forall f f' s c, length s < f -> length s < f' ->
                   iterate step f s c = iterate step f' s c.
Proof.
  induction f as [|f IH]; intros f' s c Hf Hf'; [lia|].
  destruct f' as [|f']; [lia|]. simpl. f_equal.
  apply flat_map_ext. intros st.
  destruct (length (fst st) <? length s) eqn:E; [|reflexivity].
  apply Nat.ltb_lt in E. apply IH; lia.
Qed.

(** Every word of the pattern at the head of the subject is found. *)
Theorem run_complete (r : regex) (w : str) :
  matches r w -> forall s c, exists c', In (s, c') (run r (w ++ s) c).
Proof.
  induction 1 as [| a | a Ha | p a Ha | r1 r2 w1 w2 _ IH1 _ IH2
                  | r1 r2 w _ IH | r1 r2 w _ IH | r w _ IH | r | r
                  | r w1 w2 _ IH1 _ IH2 | r w1 w2 _ IH1 _ IH2 | r
                  | r n w1 w2 _ IH1 _ IH2 | i r w _ IH];
    intros s c; cbn [run].
  - exists c. now left.
  - exists c. simpl. unfold ascii_eqb. rewrite Ascii.eqb_refl. now left.
  - exists c. simpl. rewrite Ha. now left.
  - exists c. simpl. rewrite Ha. now left.
  - destruct (IH1 (w2 ++ s) c) as [c1 H1]. destruct (IH2 s c1) as [c2 H2].
    exists c2. rewrite <- app_assoc. apply in_flat_map.
    exists (w2 ++ s, c1). split; assumption.
  - destruct (IH s c) as [c' H']. exists c'. apply in_or_app. now left.
  - destruct (IH s c) as [c' H']. exists c'. apply in_or_app. now right.
  - destruct (IH s c) as [c' H']. exists c'. apply in_or_app. now left.
  - exists c. apply in_or_app. right. now left.
  - exists c. simpl. apply in_or_app. right. now left.
  - destruct w1 as [|x w1].
    + apply (IH2 s c).
    + destruct (IH1 (w2 ++ s) c) as [c1 H1]. destruct (IH2 s c1) as [c2 H2].
      exists c2. rewrite <- app_assoc. cbn [iterate]. apply in_or_app. left.
      apply in_flat_map. exists (w2 ++ s, c1). split; [exact H1|].
      cbn [fst snd].
      replace (length (w2 ++ s) <? length ((x :: w1) ++ w2 ++ s)) with true
        by (symmetry; apply Nat.ltb_lt; simpl; rewrite !length_app; lia).
      cbn [run] in H2.
      rewrite (iterate_fuel (run r) (f':=S (length (w2 ++ s)))); [exact H2| |lia].
      simpl. rewrite !length_app. lia.
  - destruct (IH1 (w2 ++ s) c) as [c1 H1]. destruct (IH2 s c1) as [c2 H2].
    exists c2. rewrite <- app_assoc. apply in_flat_map.
    exists (w2 ++ s, c1). split; [exact H1|exact H2].
  - exists c. now left.
  - destruct (IH1 (w2 ++ s) c) as [c1 H1]. destruct (IH2 s c1) as [c2 H2].
    exists c2. rewrite <- app_assoc. apply in_flat_map.
    exists (w2 ++ s, c1). split; [exact H1|exact H2].
  - destruct (IH s c) as [c' H']. eexists. apply in_map_iff.
    exists (s, c'). split; [reflexivity|exact H'].
Qed.

(** [match_here] succeeds exactly when a prefix is a word of the pattern. *)
Lemma match_here_None (r : regex) (pos : nat) (s : str) :
  match_here r pos s = None <->
  (forall w post, s = w ++ post -> ~ matches r w).
Proof.
  unfold match_here. split.
  - intros H w post -> Mw. destruct (run_complete Mw post []) as [c' Hin].
    destruct (run r (w ++ post) []) as [|[s' c] l]; [contradiction|discriminate].
  - intros H. destruct (run r s []) as [|[s' c] l] eqn:E; [reflexivity|].
    exfalso. assert (Hin : In (s', c) (run r s [])) by (rewrite E; now left).
    destruct (run_sound _ _ _ _ Hin) as [w [Es Mw]]. exact (H _ _ Es Mw).
Qed.

Lemma search_from_None (r : regex) :
  forall s pos, search_from r pos s = None <-> ~ occurs r s.
Proof.
  induction s as [|x s IH]; intros pos; cbn [search_from].
  - destruct (match_here r pos []) eqn:E.
    + split; [discriminate|]. intros H. exfalso. apply H.
      unfold match_here in E.
      destruct (run r [] []) as [|[s' c] l] eqn:E'; [discriminate|].
      assert (Hin : In (s', c) (run r [] [])) by (rewrite E'; now left).
      destruct (run_sound _ _ _ _ Hin) as [w [Es Mw]].
      exists [], w, (fst (s', c)). now split.
    + split; [|reflexivity]. intros _ [pre [w [post [Es Mw]]]].
      symmetry in Es. apply app_eq_nil in Es. destruct Es as [-> Es].
      apply app_eq_nil in Es. destruct Es as [-> ->].
      apply (proj1 (match_here_None r pos []) E [] []); [reflexivity|exact Mw].
  - destruct (match_here r pos (x :: s)) eqn:E.
    + split; [discriminate|]. intros H. exfalso. apply H.
      unfold match_here in E.
      destruct (run r (x :: s) []) as [|[s' c] l] eqn:E'; [discriminate|].
      assert (Hin : In (s', c) (run r (x :: s) [])) by (rewrite E'; now left).
      destruct (run_sound _ _ _ _ Hin) as [w [Es Mw]].
      exists [], w, (fst (s', c)). now split.
    + rewrite IH. split.
      * intros Hn [pre [w [post [Es Mw]]]]. destruct pre as [|y pre].
        -- apply (proj1 (match_here_None r pos (x :: s)) E w post Es Mw).
        -- apply Hn. injection Es as _ Es. now exists pre, w, post.
      * intros Hn [pre [w [post [Es Mw]]]]. apply Hn.
        exists (x :: pre), w, post. split; [now rewrite Es|exact Mw].
Qed.

(** [re.search] finds nothing exactly when no substring of the subject is
    a word of the pattern. *)
Theorem search_None (r : regex) (s : str) :
  search r s = None <-> ~ occurs r s.
Proof. apply search_from_None. Qed.

(** *** Groups *)

Lemma iterate_keeps_caps (step : str -> caps -> list state) :
  (forall s c st, In st (step s c) -> snd st = c) ->
  forall fuel s c st, In st (iterate step fuel s c) -> snd st = c.
Proof.
  intros Hstep fuel.
  induction fuel as [|f IH]; intros s c st Hin; simpl in Hin.
  - now only_one Hin.
  - apply in_app_or in Hin. destruct Hin as [Hin|[<-|[]]]; [|reflexivity].
    apply in_flat_map_state in Hin. destruct Hin as [x [Hx Hy]].
    destruct (length (fst x) <? length s); [|contradiction].
    rewrite (IH _ _ _ Hy). now apply Hstep with s.
Qed.

(** A pattern without groups leaves the groups alone. *)
Lemma run_keeps_caps (r : regex) :
  has_grp r = false ->
  forall s c st, In st (run r s c) -> snd st = c.
Proof.
  induction r as [| a | | p | r1 IH1 r2 IH2 | r1 IH1 r2 IH2 | r1 IH1
                  | r1 IH1 | r1 IH1 | n r1 IH1 | i r1 IH1];
    intros Hg s c st Hin; cbn [run] in Hin; cbn [has_grp] in Hg.
  - now only_one Hin.
  - destruct s as [|x s']; [contradiction|].
    destruct (ascii_eqb x a); [|contradiction]. now only_one Hin.
  - destruct s as [|x s']; [contradiction|].
    destruct (ascii_eqb x newline); [contradiction|].
    now only_one Hin.
  - destruct s as [|x s']; [contradiction|].
    destruct (p x); [|contradiction]. now only_one Hin.
  - apply orb_false_iff in Hg. destruct Hg as [G1 G2].
    apply in_flat_map_state in Hin. destruct Hin as [x [Hx Hy]].
    rewrite (IH2 G2 _ _ _ Hy). exact (IH1 G1 _ _ _ Hx).
  - apply orb_false_iff in Hg. destruct Hg as [G1 G2].
    apply in_app_or in Hin. destruct Hin as [Hin|Hin].
    + exact (IH1 G1 _ _ _ Hin).
    + exact (IH2 G2 _ _ _ Hin).
  - apply in_app_or in Hin. destruct Hin as [Hin|[<-|[]]]; [|reflexivity].
    exact (IH1 Hg _ _ _ Hin).
  - exact (iterate_keeps_caps (run r1) (IH1 Hg) _ _ _ _ Hin).
  - apply in_flat_map_state in Hin. destruct Hin as [x [Hx Hy]].
    rewrite (iterate_keeps_caps (run r1) (IH1 Hg) _ _ _ _ Hy).
    exact (IH1 Hg _ _ _ Hx).
  - revert s c st Hin. induction n as [|n IHn]; intros s c st Hin.
    + now only_one Hin.
    + apply in_flat_map_state in Hin. destruct Hin as [x [Hx Hy]].
      rewrite (IHn _ _ _ Hy). exact (IH1 Hg _ _ _ Hx).
  - discriminate.
Qed.

Lemma firstn_consumed (w s : str) :
  firstn (length (w ++ s) - length s) (w ++ s) = w.
Proof.
  rewrite length_app. replace (length w + length s - length s) with (length w) by lia.
  rewrite firstn_app, Nat.sub_diag, firstn_all. simpl. apply app_nil_r.
Qed.

(** A group records the word its pattern consumed. *)
Lemma run_grp (i : nat) (r : regex) (s : str) (c : caps) (st : state) :
  In st (run (Grp i r) s c) ->
  exists w c', s = w ++ fst st /\ matches r w /\ snd st = (i, w) :: c' /\
               In (fst st, c') (run r s c).
Proof.
  cbn [run]. intros Hin. apply in_map_iff in Hin. destruct Hin as [[s1 c1] [<- Hx]].
  destruct (run_sound _ _ _ _ Hx) as [w [E Mw]]. cbn [fst snd] in *.
  exists w, c1. repeat split; try assumption.
  subst s. now rewrite firstn_consumed.
Qed.

(** *** The match that is reported *)

Lemma first_cat (r1 r2 : regex) (s : str) (c : caps) (s1 : str) (c1 : caps)
      (st : state) :
  first r1 s c = Some (s1, c1) -> first r2 s1 c1 = Some st ->
  first (Cat r1 r2) s c = Some st.
Proof.
  unfold first. cbn [run]. intros H1 H2.
  destruct (run r1 s c) as [|x l]; [discriminate|]. injection H1 as ->.
  cbn [flat_map fst snd]. destruct (run r2 s1 c1) as [|y l2]; [discriminate|].
  exact H2.
Qed.

Lemma first_grp (i : nat) (r : regex) (w s : str) (c c' : caps) :
  first r (w ++ s) c = Some (s, c') ->
  first (Grp i r) (w ++ s) c = Some (s, (i, w) :: c').
Proof.
  unfold first. cbn [run]. intros H.
  destruct (run r (w ++ s) c) as [|x l]; [discriminate|]. injection H as ->.
  cbn [map hd_error fst snd]. now rewrite firstn_consumed.
Qed.

Lemma first_opt_taken (r : regex) (s : str) (c : caps) (st : state) :
  first r s c = Some st -> first (Opt r) s c = Some st.
Proof.
  unfold first. cbn [run]. intros H.
  destruct (run r s c) as [|x l]; [discriminate|exact H].
Qed.

Lemma first_opt_skipped (r : regex) (s : str) (c : caps) :
  run r s c = [] -> first (Opt r) s c = Some (s, c).
Proof. unfold first. cbn [run]. now intros ->. Qed.

Lemma first_lit (l s : str) (c : caps) : first (Lit l) (l ++ s) c = Some (s, c).
Proof.
  induction l as [|a l IH]; [reflexivity|].
  cbn [Lit]. apply first_cat with (s1 := l ++ s) (c1 := c); [|exact IH].
  unfold first. simpl. unfold ascii_eqb. now rewrite Ascii.eqb_refl.
Qed.

(** A literal that is not at the head of the subject does not match. *)
Lemma run_lit_mismatch (l s : str) (c : caps) :
  startswith s l = false -> run (Lit l) s c = [].
Proof.
  revert s. induction l as [|a l IH]; intros s H; [simpl in H; discriminate|].
  cbn [Lit run]. destruct s as [|x s]; [reflexivity|]. simpl in H.
  unfold ascii_eqb in *. rewrite Ascii.eqb_sym.
  destruct (Ascii.eqb a x); [|reflexivity]. simpl in H.
  cbn [flat_map fst snd]. rewrite (IH _ H). reflexivity.
Qed.

Lemma run_cat (r1 r2 : regex) (s : str) (c : caps) :
  run (Cat r1 r2) s c
  = flat_map (fun st : state => run r2 (fst st) (snd st)) (run r1 s c).
Proof. reflexivity. Qed.

Lemma run_cat_nil (r1 r2 : regex) (s : str) (c : caps) :
  run r1 s c = [] -> run (Cat r1 r2) s c = [].
Proof. cbn [run]. now intros ->. Qed.

Lemma run_cls_stops (p : ascii -> bool) (s : str) (c : caps) :
  stops p s -> run (Cls p) s c = [].
Proof. destruct s as [|x s]; [reflexivity|]. simpl. now intros ->. Qed.

(** The greedy iteration of a class takes the whole run of the class. *)
Lemma iterate_cls_first (p : ascii -> bool) (s : str) (c : caps) :
  stops p s ->
  forall t fuel, all_in p t -> length t < fuel ->
                 hd_error (iterate (run (Cls p)) fuel (t ++ s) c) = Some (s, c).
Proof.
  intros Hs. set (step := run (Cls p)).
  assert (Hstop : step s c = []) by (apply run_cls_stops; exact Hs).
  induction t as [|a t IH]; intros fuel Ht Hf.
  - destruct fuel as [|f]; [reflexivity|]. cbn [iterate app].
    now rewrite Hstop.
  - destruct fuel as [|f]; [simpl in Hf; lia|].
    inversion Ht as [|? ? Ha Ht']; subst.
    assert (Hstep : step (a :: t ++ s) c = [(t ++ s, c)])
      by (unfold step; simpl; now rewrite Ha).
    cbn [iterate app]. rewrite Hstep. cbn [flat_map fst snd].
    replace (length (t ++ s) <? length (a :: t ++ s)) with true
      by (symmetry; apply Nat.ltb_lt; simpl; lia).
    specialize (IH f Ht' ltac:(simpl in Hf; lia)).
    destruct (iterate step f (t ++ s) c) as [|y l]; [discriminate|].
    exact IH.
Qed.

Lemma first_plus_cls (p : ascii -> bool) (t s : str) (c : caps) :
  t <> [] -> all_in p t -> stops p s ->
  first (Plus (Cls p)) (t ++ s) c = Some (s, c).
Proof.
  intros Hne Ht Hs. destruct t as [|a t]; [congruence|].
  inversion Ht as [|? ? Ha Ht']; subst.
  assert (Hstep : run (Cls p) (a :: t ++ s) c = [(t ++ s, c)])
    by (simpl; now rewrite Ha).
  unfold first.
  change (run (Plus (Cls p)) ((a :: t) ++ s) c)
    with (flat_map (fun st : state =>
                      iterate (run (Cls p)) (S (length (fst st))) (fst st) (snd st))
                   (run (Cls p) (a :: t ++ s) c)).
  rewrite Hstep. cbn [flat_map fst snd].
  rewrite app_nil_r. apply iterate_cls_first; [assumption..|rewrite length_app; lia].
Qed.

(** *** Words of classes *)

Lemma matches_star_cls (p : ascii -> bool) (w : str) :
  matches (Star (Cls p)) w -> all_in p w.
Proof.
  intros H. remember (Star (Cls p)) as r eqn:Er.
  induction H; try discriminate.
  - constructor.
  - injection Er as ->. inversion H; subst. constructor; [assumption|].
    now apply IHmatches2.
Qed.

Lemma matches_plus_cls (p : ascii -> bool) (w : str) :
  matches (Plus (Cls p)) w -> w <> [] /\ all_in p w.
Proof.
  intros H. inversion H as [| | | | | | | | | | | r w1 w2 H1 H2 | | |]; subst.
  inversion H1; subst. split; [discriminate|].
  constructor; [assumption|]. now apply matches_star_cls.
Qed.

Lemma matches_lit (l w : str) : matches (Lit l) w -> w = l.
Proof.
  revert w. induction l as [|a l IH]; intros w H; cbn [Lit] in H.
  - now inversion H.
  - inversion H as [| | | | r1 r2 w1 w2 H1 H2 | | | | | | | | | |]; subst.
    inversion H1; subst. simpl. f_equal. now apply IH.
Qed.

(** *** Inversion of the denotation *)

Lemma matches_cat_inv (r1 r2 : regex) (w : str) :
  matches (Cat r1 r2) w ->
  exists w1 w2, w = w1 ++ w2 /\ matches r1 w1 /\ matches r2 w2.
Proof. intros H. inversion H; subst. eauto. Qed.

Lemma matches_grp_inv (i : nat) (r : regex) (w : str) :
  matches (Grp i r) w -> matches r w.
Proof. intros H. now inversion H. Qed.

Lemma matches_chr_inv (a : ascii) (w : str) : matches (Chr a) w -> w = [a].
Proof. intros H. now inversion H. Qed.

Lemma matches_any_inv (w : str) :
  matches Any w -> exists a, w = [a] /\ ascii_eqb a newline = false.
Proof. intros H. inversion H; subst. eauto. Qed.

Lemma matches_opt_inv (r : regex) (w : str) :
  matches (Opt r) w -> matches r w \/ w = [].
Proof. intros H. inversion H; subst; auto. Qed.

Lemma matches_cls_inv (p : ascii -> bool) (w : str) :
  matches (Cls p) w -> exists a, w = [a] /\ p a = true.
Proof. intros H. inversion H; subst. eauto. Qed.

Lemma matches_lit_intro (l : str) : matches (Lit l) l.
Proof.
  induction l as [|x l IH]; [constructor|].
  change (x :: l) with ([x] ++ l). cbn [Lit]. constructor; [constructor|exact IH].
Qed.

Lemma matches_star_cls_intro (p : ascii -> bool) (w : str) :
  all_in p w -> matches (Star (Cls p)) w.
Proof.
  induction 1 as [|a w Ha _ IH]; [constructor|].
  change (a :: w) with ([a] ++ w). constructor; [now constructor|exact IH].
Qed.

Lemma matches_plus_cls_intro (p : ascii -> bool) (w : str) :
  w <> [] -> all_in p w -> matches (Plus (Cls p)) w.
Proof.
  intros Hne Hall. destruct w as [|a w]; [congruence|].
  inversion Hall; subst. change (a :: w) with ([a] ++ w).
  constructor; [now constructor|now apply matches_star_cls_intro].
Qed.

End Matcher.

(** ** RCPT: classification of one recipient *)

Section Rcpt.

Variable cfg : Config.

Let self := init cfg.

(** Group 1 of the receiver pattern. *)
Let contact := Cat (Opt (Chr "+")) (Plus (Cls digit)).
(** What follows group 1. *)
Let domain := Cat (Lit (lit "@signal")) (Cat Any (Lit (lit "localdomain"))).

Lemma match_here_first (r : regex) (pos : nat) (s s' : str) (c : caps) :
  first r s [] = Some (s', c) ->
  match_here r pos s = Some (mkMatch pos (pos + (length s - length s')) c).
Proof.
  unfold first, match_here. destruct (run r s []) as [|[s1 c1] l]; [discriminate|].
  now intros [= -> ->].
Qed.

Lemma search_from_unfold (r : regex) (pos : nat) (s : str) :
  search_from r pos s =
  match match_here r pos s with
  | Some m => Some m
  | None => match s with [] => None | _ :: s' => search_from r (S pos) s' end
  end.
Proof. destruct s; reflexivity. Qed.

(** The groups of a reported match come from a state of the matcher. *)
Lemma search_from_groups (r : regex) :
  forall s pos m, search_from r pos s = Some m ->
                  exists t st, In st (run r t []) /\ m_groups m = snd st.
Proof.
  assert (Here : forall pos s m, match_here r pos s = Some m ->
                   exists t st, In st (run r t []) /\ m_groups m = snd st).
  { intros pos s m. unfold match_here.
    destruct (run r s []) as [|[s1 c1] l] eqn:E; [discriminate|].
    intros [= <-]. exists s, (s1, c1). split; [rewrite E; now left|reflexivity]. }
  induction s as [|x s IH]; intros pos m; cbn [search_from].
  - destruct (match_here r pos []) eqn:E; [|discriminate].
    intros [= <-]. exact (Here _ _ _ E).
  - destruct (match_here r pos (x :: s)) eqn:E.
    + intros [= <-]. exact (Here _ _ _ E).
    + apply IH.
Qed.

(** The words of group 1: an optional [+] and at least one digit. *)
Lemma contact_words (w : str) : matches contact w <-> contact_digits w.
Proof.
  split.
  - intros H. apply matches_cat_inv in H. destruct H as [w1 [w2 [-> [H1 H2]]]].
    destruct (matches_plus_cls H2) as [Hne Hall].
    exists w2. repeat split; try assumption.
    apply matches_opt_inv in H1. destruct H1 as [H1 | ->].
    + apply matches_chr_inv in H1. subst w1. now right.
    + now left.
  - intros [ds [Hne [Hall [-> | ->]]]].
    + change ds with ([] ++ ds).
      constructor; [apply MOptN|now apply matches_plus_cls_intro].
    + change ("+"%char :: ds) with (["+"%char] ++ ds).
      constructor; [apply MOptS; constructor|now apply matches_plus_cls_intro].
Qed.

(** The words of the receiver pattern. *)
Lemma receiver_words (w : str) :
  matches (receiver_regex self) w <->
  exists g a, contact_digits g /\ ascii_eqb a newline = false /\
              w = g ++ lit "@signal" ++ a :: lit "localdomain".
Proof.
  change (receiver_regex self) with (Cat (Grp 1 contact) domain).
  split.
  - intros H. apply matches_cat_inv in H. destruct H as [g [w2 [-> [H1 H2]]]].
    apply matches_grp_inv in H1.
    apply matches_cat_inv in H2. destruct H2 as [w3 [w4 [-> [H3 H4]]]].
    apply matches_cat_inv in H4. destruct H4 as [w5 [w6 [-> [H5 H6]]]].
    apply matches_any_inv in H5. destruct H5 as [a [-> Ha]].
    apply matches_lit in H3. apply matches_lit in H6. subst.
    exists g, a. repeat split; try assumption. now apply contact_words.
  - intros [g [a [Hg [Ha ->]]]].
    apply MCat; [apply MGrp; now apply contact_words|].
    apply MCat; [apply matches_lit_intro|].
    change (a :: lit "localdomain") with ([a] ++ lit "localdomain").
    apply MCat; [now constructor|apply matches_lit_intro].
Qed.

(** Whatever the receiver pattern matches, group 1 is set to a contact. *)
Lemma receiver_groups (t : str) (st : state) :
  In st (run (receiver_regex self) t []) ->
  exists g, snd st = [(1, g)] /\ contact_digits g.
Proof.
  change (receiver_regex self) with (Cat (Grp 1 contact) domain).
  intros Hin. rewrite run_cat in Hin. apply in_flat_map_state in Hin.
  destruct Hin as [x [Hx Hy]].
  destruct (run_grp _ _ _ _ _ Hx) as [w [c' [_ [Mw [Ec Hc]]]]].
  assert (c' = []) as ->
    by exact (run_keeps_caps contact eq_refl _ _ _ Hc).
  exists w. split; [|now apply contact_words].
  rewrite (run_keeps_caps domain eq_refl _ _ _ Hy). exact Ec.
Qed.

(** The match reported on a contact followed by the domain. *)
Lemma receiver_first (p ds post : str) :
  ds <> [] -> all_in digit ds -> p = [] \/ p = ["+"%char] ->
  first (receiver_regex self) (p ++ ds ++ lit "@signal.localdomain" ++ post) []
  = Some (post, [(1, p ++ ds)]).
Proof.
  intros Hne Hall Hp.
  change (receiver_regex self) with (Cat (Grp 1 contact) domain).
  set (rest := lit "@signal.localdomain" ++ post).
  apply first_cat with (s1 := rest) (c1 := [(1, p ++ ds)]).
  - rewrite app_assoc. apply first_grp. rewrite <- app_assoc.
    apply first_cat with (s1 := ds ++ rest) (c1 := []).
    + destruct Hp as [-> | ->].
      * apply first_opt_skipped. destruct ds as [|d ds]; [congruence|].
        inversion Hall as [|? ? Hd _]; subst. simpl.
        destruct (ascii_eqb d "+") eqn:E; [|reflexivity].
        apply Ascii.eqb_eq in E. subst d. discriminate Hd.
      * apply first_opt_taken. reflexivity.
    + apply first_plus_cls; [assumption..|reflexivity].
  - reflexivity.
Qed.

Lemma search_receiver (p ds : str) :
  ds <> [] -> all_in digit ds -> p = [] \/ p = ["+"%char] ->
  exists m, search (receiver_regex self) (p ++ ds ++ lit "@signal.localdomain")
            = Some m /\ group m 1 = Some (p ++ ds).
Proof.
  intros Hne Hall Hp. unfold search. rewrite search_from_unfold.
  pose proof (receiver_first [] Hne Hall Hp) as F.
  rewrite app_nil_r in F. rewrite (match_here_first _ 0 _ F).
  eexists. split; reflexivity.
Qed.

End Rcpt.

(** *** Claims about RCPT *)

Lemma startswith_plus_digit (d : ascii) (s : str) :
  digit d = true -> startswith (d :: s) (lit "+") = false.
Proof.
  intros Hd. simpl. destruct (ascii_eqb "+" d) eqn:E; [|reflexivity].
  apply Ascii.eqb_eq in E. subst d. discriminate Hd.
Qed.

(** C2. For every address made of digits and the reserved domain, with or
    without one leading [+], [handle_RCPT] appends the same contact id to
    the recipient list: the digits prefixed with [+] exactly once.  The
    list afterwards is the list before with that one id at its end. *)
Theorem rcpt_contact_canonical (cfg : Config) (envelope : Envelope) (ds : str) :
  ds <> [] -> all_in digit ds ->
  let bare :=
    handle_RCPT (init cfg) envelope (ds ++ lit "@signal.localdomain") in
  let plus :=
    handle_RCPT (init cfg) envelope ("+"%char :: ds ++ lit "@signal.localdomain") in
  bare = (lit "250 OK", append_rcpt envelope ("+"%char :: ds)) /\
  plus = (lit "250 OK", append_rcpt envelope ("+"%char :: ds)) /\
  rcpt_tos (snd bare) = rcpt_tos envelope ++ ["+"%char :: ds] /\
  rcpt_tos (snd plus) = rcpt_tos envelope ++ ["+"%char :: ds] /\
  fst bare = lit "250 OK" /\ fst plus = lit "250 OK".
Proof.
  intros Hne Hall bare plus.
  assert (Eb : bare = (lit "250 OK", append_rcpt envelope ("+"%char :: ds))).
  { unfold bare, handle_RCPT.
    destruct (search_receiver cfg (p:=[]) Hne Hall (or_introl eq_refl))
      as [m [Hs Hg]].
    cbn [app] in Hs. rewrite Hs, Hg.
    destruct ds as [|d ds]; [congruence|]. inversion Hall; subst.
    cbn [app]. now rewrite startswith_plus_digit. }
  assert (Ep : plus = (lit "250 OK", append_rcpt envelope ("+"%char :: ds))).
  { unfold plus, handle_RCPT.
    destruct (search_receiver cfg (p:=["+"%char]) Hne Hall (or_intror eq_refl))
      as [m [Hs Hg]].
    cbn [app] in Hs. rewrite Hs, Hg. reflexivity. }
  rewrite Eb, Ep. repeat split.
Qed.

Lemma rcpt_contact_canonical_witness :
  let envelope := with_rcpts [lit "bob@example.com"] in
  rcpt_tos (snd (handle_RCPT (init sample_config) envelope
                             (lit "123@signal.localdomain")))
  = [lit "bob@example.com"; lit "+123"] /\
  rcpt_tos (snd (handle_RCPT (init sample_config) envelope
                             (lit "+123@signal.localdomain")))
  = [lit "bob@example.com"; lit "+123"] /\
  fst (handle_RCPT (init sample_config) envelope (lit "123@signal.localdomain"))
  = lit "250 OK" /\
  fst (handle_RCPT (init sample_config) envelope (lit "+123@signal.localdomain"))
  = lit "250 OK".
Proof.
  intros envelope.
  destruct (@rcpt_contact_canonical sample_config envelope (lit "123"))
    as [_ [_ [Rb [Rp [Fb Fp]]]]].
  - discriminate.
  - repeat constructor.
  - repeat split; assumption.
Defined.


(** C3. An address in which the receiver pattern occurs nowhere is appended
    to the recipient list unchanged, and the answer is [250 OK]: the list
    afterwards is the list before with the address, as it was given, at
    its end; sender and content are as before. *)
Theorem rcpt_email_unchanged (cfg : Config) (envelope : Envelope) (address : str) :
  ~ occurs (receiver_regex (init cfg)) address ->
  handle_RCPT (init cfg) envelope address
  = (lit "250 OK", append_rcpt envelope address) /\
  fst (handle_RCPT (init cfg) envelope address) = lit "250 OK" /\
  rcpt_tos (snd (handle_RCPT (init cfg) envelope address))
  = rcpt_tos envelope ++ [address] /\
  mail_from (snd (handle_RCPT (init cfg) envelope address)) = mail_from envelope /\
  content (snd (handle_RCPT (init cfg) envelope address)) = content envelope.
Proof.
  intros H. apply search_None in H. unfold handle_RCPT. rewrite H.
  repeat split.
Qed.

Lemma rcpt_email_unchanged_witness :
  let envelope := with_rcpts [lit "+15551234567"] in
  fst (handle_RCPT (init sample_config) envelope (lit "bob@example.com"))
  = lit "250 OK" /\
  rcpt_tos (snd (handle_RCPT (init sample_config) envelope (lit "bob@example.com")))
  = [lit "+15551234567"; lit "bob@example.com"].
Proof.
  intros envelope.
  destruct (@rcpt_email_unchanged sample_config envelope (lit "bob@example.com"))
    as [_ [F [R _]]].
  - apply search_None. vm_compute. reflexivity.
  - split; [exact F|exact R].
Defined.

(** C9. [handle_RCPT] answers [250 OK] to every address and appends exactly
    one entry; the [500 Malformed receiver address] answer is never given,
    because every match of the receiver pattern carries a group 1 made of
    an optional [+] and at least one digit. *)
Theorem rcpt_always_accepts (cfg : Config) (envelope : Envelope) (address : str) :
  (exists entry,
     handle_RCPT (init cfg) envelope address
     = (lit "250 OK", append_rcpt envelope entry) /\
     rcpt_tos (snd (handle_RCPT (init cfg) envelope address))
     = rcpt_tos envelope ++ [entry]) /\
  fst (handle_RCPT (init cfg) envelope address)
  <> lit "500 Malformed receiver address" /\
  (forall m, search (receiver_regex (init cfg)) address = Some m ->
             exists g, group m 1 = Some g /\ contact_digits g).
Proof.
  assert (G : forall m, search (receiver_regex (init cfg)) address = Some m ->
                        exists g, group m 1 = Some g /\ contact_digits g).
  { intros m Hm. apply search_from_groups in Hm.
    destruct Hm as [t [st [Hin Eg]]].
    destruct (receiver_groups cfg _ _ Hin) as [g [Es Hg]].
    exists g. split; [|exact Hg]. unfold group. rewrite Eg, Es. reflexivity. }
  assert (E : exists entry, handle_RCPT (init cfg) envelope address
                            = (lit "250 OK", append_rcpt envelope entry)).
  { unfold handle_RCPT.
    destruct (search (receiver_regex (init cfg)) address) as [m|] eqn:Es.
    - destruct (G m eq_refl) as [g [-> _]]. eexists. reflexivity.
    - eexists. reflexivity. }
  destruct E as [entry E]. repeat split.
  - exists entry. rewrite E. split; reflexivity.
  - rewrite E. discriminate.
  - exact G.
Qed.

(** ** DATA: partition and delivery *)

Section Data.

Variable W : Collaborators.
Variable self : EmailHandler.

Lemma fold_bucket (l : list str) :
  forall a b, fold_left bucket l (a, b)
              = (a ++ filter starts_plus l,
                 b ++ filter (fun x => negb (starts_plus x)) l).
Proof.
  induction l as [|x l IH]; intros a b; cbn [fold_left filter].
  - now rewrite !app_nil_r.
  - unfold bucket at 2. fold (starts_plus x).
    destruct (starts_plus x); cbn [fst snd negb]; rewrite IH;
      now rewrite <- app_assoc.
Qed.

(** The loop of [handle_DATA] computes two filters. *)
Lemma partition_rcpts_filter (l : list str) :
  partition_rcpts l
  = (filter starts_plus l, filter (fun x => negb (starts_plus x)) l).
Proof. unfold partition_rcpts. now rewrite fold_bucket. Qed.

Lemma send_signal_unfold (envelope : Envelope) (receivers : list str) :
  send_signal W self envelope receivers =
  match header_decode W (get_subject W (content envelope)) with
  | Raised e => (Raised e, [])
  | Returned subject =>
      let payload := build_payload W self subject (body_of W envelope) receivers in
      let post := Post (signal_url W self) signal_headers payload in
      match request_post W (signal_url W self) signal_headers payload with
      | Returned code => (Returned (Z.eqb code 201), [post])
      | Raised e => (Raised e, [post])
      end
  end.
Proof.
  unfold send_signal, body_of, signal_url, signal_headers, lift, emit, ret, bind.
  destruct (header_decode W (get_subject W (content envelope))); [|reflexivity].
  cbv zeta.
  destruct (request_post W _ _ _); reflexivity.
Qed.

(** [send_signal] never calls the relay. *)
Lemma send_signal_no_relay (envelope : Envelope) (receivers : list str) :
  relay_not_invoked (trace (send_signal W self envelope receivers)).
Proof.
  rewrite send_signal_unfold. intros e.
  destruct (header_decode W _); [|intros []].
  cbv zeta. destruct (request_post W _ _ _); intros [<-|[]]; reflexivity.
Qed.

Lemma handle_DATA_unfold (envelope : Envelope) :
  handle_DATA W self envelope =
  let signal_numbers := filter starts_plus (rcpt_tos envelope) in
  let mail_addresses :=
    filter (fun x => negb (starts_plus x)) (rcpt_tos envelope) in
  let signalled : M bool :=
    match signal_numbers with
    | _ :: _ => send_signal W self envelope signal_numbers
    | [] => ret true
    end in
  match signalled with
  | (Raised e, t) => ((Raised e, t), envelope)
  | (Returned false, t) =>
      ((Returned (lit "554 Sending signal message has failed"), t), envelope)
  | (Returned true, t) =>
      match mail_addresses with
      | [] => ((Returned (lit "250 Message accepted for delivery"), t), envelope)
      | _ :: _ =>
          let envelope' :=
            {| mail_from := mail_from envelope;
               rcpt_tos := mail_addresses;
               content := content envelope |} in
          let cfg := config self in
          match int_of_str W (smtp_port cfg) with
          | Raised e => ((Raised e, t), envelope')
          | Returned port =>
              ((Returned (send_mail W (smtp_host cfg) port (smtp_user cfg)
                                    (smtp_passwd cfg) envelope'),
                t ++ [SendMail (smtp_host cfg) port (smtp_user cfg)
                               (smtp_passwd cfg) envelope']),
               envelope')
          end
      end
  end.
Proof. unfold handle_DATA. now rewrite partition_rcpts_filter. Qed.

(** What [handle_DATA] does once the subject is decoded and there is at
    least one recipient for signal. *)
Lemma handle_DATA_signalled (envelope : Envelope) (subject : str) :
  filter starts_plus (rcpt_tos envelope) <> [] ->
  header_decode W (get_subject W (content envelope)) = Returned subject ->
  let payload :=
    build_payload W self subject (body_of W envelope)
                  (filter starts_plus (rcpt_tos envelope)) in
  let post := Post (signal_url W self) signal_headers payload in
  match rest_answer W self envelope subject with
  | Raised e => fst (handle_DATA W self envelope) = (Raised e, [post])
  | Returned code =>
      if Z.eqb code 201
      then exists r t, fst (handle_DATA W self envelope) = (r, post :: t) /\
                       (forall e, In e t -> is_post e = false)
      else fst (handle_DATA W self envelope)
           = (Returned (lit "554 Sending signal message has failed"), [post])
  end.
Proof.
  intros Hne Hd. rewrite handle_DATA_unfold. cbv zeta.
  unfold rest_answer.
  destruct (filter starts_plus (rcpt_tos envelope)) as [|n ns] eqn:En;
    [congruence|].
  rewrite send_signal_unfold, Hd. cbv zeta.
  destruct (request_post W _ _ _) as [code|e]; [|reflexivity].
  destruct (Z.eqb code 201); [|reflexivity].
  destruct (filter (fun x => negb (starts_plus x)) (rcpt_tos envelope)).
  - eexists _, []. split; [reflexivity|]. intros ev [].
  - destruct (int_of_str W _) as [port|err].
    + eexists _, [_]. split; [reflexivity|]. intros ev [<-|[]]. reflexivity.
    + eexists _, []. split; [reflexivity|]. intros ev [].
Qed.

(** The fields of the payload. *)
Lemma build_payload_fields (subject body : str) (receivers : list str) :
  let payload := build_payload W self subject body receivers in
  dict_get (lit "message") payload = Some (JStr (message_text W subject body)) /\
  dict_get (lit "number") payload
  = Some (JStr (remove_char backslash (sender_number (config self)))) /\
  dict_get (lit "recipients") payload = Some (JList receivers) /\
  dict_get (lit "base64_attachments") payload
  = match findall data_uri_regex body with
    | [] => None
    | _ :: _ => Some (JList (map clean_image (findall data_uri_regex body)))
    end.
Proof.
  unfold build_payload. cbv zeta.
  destruct (findall data_uri_regex body); repeat split; reflexivity.
Qed.

(** Every call [handle_DATA] makes is the POST of [send_signal] to the
    first bucket or the relay of the second bucket. *)
Lemma handle_DATA_events (envelope : Envelope) (e : event) :
  In e (trace (fst (handle_DATA W self envelope))) ->
  (exists subject,
     header_decode W (get_subject W (content envelope)) = Returned subject /\
     e = Post (signal_url W self) signal_headers
              (build_payload W self subject (body_of W envelope)
                             (filter starts_plus (rcpt_tos envelope)))) \/
  (exists port,
     e = SendMail (smtp_host (config self)) port (smtp_user (config self))
                  (smtp_passwd (config self))
                  {| mail_from := mail_from envelope;
                     rcpt_tos := filter (fun x => negb (starts_plus x))
                                        (rcpt_tos envelope);
                     content := content envelope |}).
Proof.
  rewrite handle_DATA_unfold. cbv zeta.
  destruct (filter starts_plus (rcpt_tos envelope)) as [|n ns] eqn:En.
  - unfold ret.
    destruct (filter (fun x => negb (starts_plus x)) (rcpt_tos envelope));
      [intros []|].
    destruct (int_of_str W _) as [port|err]; [|intros []].
    intros [<-|[]]. right. now exists port.
  - rewrite send_signal_unfold.
    destruct (header_decode W _) as [subject|err]; [|intros []].
    cbv zeta. destruct (request_post W _ _ _) as [code|err].
    + destruct (Z.eqb code 201).
      * destruct (filter (fun x => negb (starts_plus x)) (rcpt_tos envelope)).
        -- intros [<-|[]]. left. now exists subject.
        -- destruct (int_of_str W _) as [port|err].
           ++ intros [<-|[<-|[]]]; [left; now exists subject|right; now exists port].
           ++ intros [<-|[]]. left. now exists subject.
      * intros [<-|[]]. left. now exists subject.
    + intros [<-|[]]. left. now exists subject.
Qed.

End Data.

(** *** Claims about DATA *)

Lemma some_plus_filter (l : list str) :
  (exists a, In a l /\ starts_plus a = true) -> filter starts_plus l <> [].
Proof.
  intros [a [Hin Ha]] E.
  assert (H : In a (filter starts_plus l)) by (apply filter_In; now split).
  rewrite E in H. exact H.
Qed.

(** C1, as the handler has it.  In a transaction with at least one recipient
    starting with [+]: when the REST endpoint answers with a status other
    than 201, [handle_DATA] returns [554 Sending signal message has failed];
    when the REST call raises, the exception escapes [handle_DATA] and no
    response is returned; in both cases [send_mail] is not invoked, whatever
    the other recipients. *)
Theorem data_signal_failure_aborts (W : Collaborators) (self : EmailHandler)
        (envelope : Envelope) (subject : str) :
  (exists a, In a (rcpt_tos envelope) /\ starts_plus a = true) ->
  header_decode W (get_subject W (content envelope)) = Returned subject ->
  (forall code, rest_answer W self envelope subject = Returned code ->
                code <> 201%Z ->
                result (fst (handle_DATA W self envelope))
                = Returned (lit "554 Sending signal message has failed") /\
                relay_not_invoked (trace (fst (handle_DATA W self envelope)))) /\
  (forall e, rest_answer W self envelope subject = Raised e ->
             result (fst (handle_DATA W self envelope)) = Raised e /\
             relay_not_invoked (trace (fst (handle_DATA W self envelope)))).
Proof.
  intros Hsome Hd. apply some_plus_filter in Hsome.
  pose proof (handle_DATA_signalled W self envelope Hsome Hd) as H.
  cbv zeta in H. split.
  - intros code Hc Hne. rewrite Hc in H.
    destruct (Z.eqb code 201) eqn:E; [apply Z.eqb_eq in E; contradiction|].
    rewrite H. split; [reflexivity|]. intros e [<-|[]]. reflexivity.
  - intros e Hc. rewrite Hc in H. rewrite H.
    split; [reflexivity|]. intros e' [<-|[]]. reflexivity.
Qed.

Lemma data_signal_failure_aborts_witness :
  let W := sample_world (Some (lit "hello")) (Returned 500%Z) in
  let envelope := with_rcpts [lit "+15551234567"; lit "bob@example.com"] in
  result (fst (handle_DATA W (init sample_config) envelope))
  = Returned (lit "554 Sending signal message has failed") /\
  relay_not_invoked (trace (fst (handle_DATA W (init sample_config) envelope))).
Proof.
  intros W envelope.
  apply (proj1 (@data_signal_failure_aborts W (init sample_config) envelope (lit "hi")
                  (ex_intro _ (lit "+15551234567") (conj (or_introl eq_refl) eq_refl))
                  eq_refl) 500%Z).
  - reflexivity.
  - discriminate.
Defined.

(** C1 as stated fails on a transport error: nothing is returned, the
    exception escapes. *)
Lemma data_transport_error_not_554 :
  let W := sample_world (Some (lit "hello")) (Raised ConnectionError) in
  let envelope := with_rcpts [lit "+15551234567"; lit "bob@example.com"] in
  result (fst (handle_DATA W (init sample_config) envelope)) = Raised ConnectionError /\
  result (fst (handle_DATA W (init sample_config) envelope))
  <> Returned (lit "554 Sending signal message has failed").
Proof. split; [reflexivity|discriminate]. Qed.

(** C8. When every recipient starts with [+] and the REST endpoint answers
    201, [handle_DATA] returns [250 Message accepted for delivery] and
    [send_mail] is not invoked. *)
Theorem data_all_signal_accepted (W : Collaborators) (self : EmailHandler)
        (envelope : Envelope) (subject : str) :
  Forall (fun a => starts_plus a = true) (rcpt_tos envelope) ->
  header_decode W (get_subject W (content envelope)) = Returned subject ->
  rest_answer W self envelope subject = Returned 201%Z ->
  result (fst (handle_DATA W self envelope))
  = Returned (lit "250 Message accepted for delivery") /\
  relay_not_invoked (trace (fst (handle_DATA W self envelope))).
Proof.
  intros Hall Hd Hr.
  assert (Hmail : filter (fun x => negb (starts_plus x)) (rcpt_tos envelope) = []).
  { induction Hall as [|a l Ha _ IH]; [reflexivity|]. simpl. now rewrite Ha. }
  rewrite handle_DATA_unfold. cbv zeta. rewrite Hmail.
  destruct (filter starts_plus (rcpt_tos envelope)) as [|n ns] eqn:En.
  - split; [reflexivity|]. intros e [].
  - rewrite send_signal_unfold, Hd. cbv zeta.
    unfold rest_answer in Hr. rewrite En in Hr. rewrite Hr.
    split; [reflexivity|]. intros e [<-|[]]. reflexivity.
Qed.

Lemma data_all_signal_accepted_witness :
  let W := sample_world (Some (lit "hello")) (Returned 201%Z) in
  let envelope := with_rcpts [lit "+15551234567"] in
  result (fst (handle_DATA W (init sample_config) envelope))
  = Returned (lit "250 Message accepted for delivery") /\
  relay_not_invoked (trace (fst (handle_DATA W (init sample_config) envelope))).
Proof.
  intros W envelope.
  apply (@data_all_signal_accepted W (init sample_config) envelope (lit "hi")).
  - repeat constructor.
  - reflexivity.
  - reflexivity.
Defined.





(** ** The body of the message *)

Lemma startswith_app (sep s : str) : startswith (sep ++ s) sep = true.
Proof.
  induction sep as [|a sep IH]; [reflexivity|]. cbn [app startswith].
  unfold ascii_eqb. now rewrite Ascii.eqb_refl, IH.
Qed.

(** The first occurrence of [sep] is where [find] says. *)
Lemma find_first (sep rest : str) :
  forall noise, not_before sep (noise ++ sep ++ rest) (length noise) ->
                find (noise ++ sep ++ rest) sep = Some (length noise).
Proof.
  induction noise as [|x noise IH]; intros H.
  - cbn [app length]. destruct (sep ++ rest) as [|y l] eqn:E.
    + cbn [find]. rewrite <- E, startswith_app. reflexivity.
    + cbn [find]. rewrite <- E, startswith_app. reflexivity.
  - pose proof (H 0 ltac:(simpl; lia)) as H0. cbn [skipn app] in H0.
    cbn [app find length]. rewrite H0.
    rewrite IH; [reflexivity|].
    intros i Hi. apply (H (S i)). simpl. lia.
Qed.

Lemma split1_last_first (sep rest noise : str) :
  not_before sep (noise ++ sep ++ rest) (length noise) ->
  contains sep (noise ++ sep ++ rest) = true /\
  split1_last (noise ++ sep ++ rest) sep = rest.
Proof.
  intros H. unfold contains, split1_last. rewrite (@find_first sep rest noise H).
  split; [reflexivity|].
  rewrite app_assoc, <- length_app, skipn_app, Nat.sub_diag, skipn_all.
  reflexivity.
Qed.

Lemma not_before_check (sep s : str) (n : nat) :
  forallb (fun i => negb (startswith (skipn i s) sep)) (seq 0 n) = true ->
  not_before sep s n.
Proof.
  intros H i Hi. rewrite forallb_forall in H.
  apply negb_true_iff. apply H. apply in_seq. lia.
Qed.

Lemma strip_tags_no_open (s : str) :
  forall inside, ~ In "<"%char (strip_tags inside s).
Proof.
  induction s as [|a s IH]; intros inside; cbn [strip_tags]; [intros []|].
  destruct (ascii_eqb a "<") eqn:E; [apply IH|].
  destruct inside.
  - destruct (ascii_eqb a ">"); apply IH.
  - intros [->|H]; [vm_compute in E; discriminate E|exact (IH _ H)].
Qed.

Lemma strip_tags_tag_free (s : str) : tag_free (strip_tags false s).
Proof.
  intros [pre [mid [post E]]]. apply (strip_tags_no_open s false).
  rewrite E. apply in_or_app. right. now left.
Qed.

(** ** Inline images *)

Section Images.

Lemma stops_app (p : ascii -> bool) (a b : str) :
  a <> [] -> stops p a -> stops p (a ++ b).
Proof. destruct a as [|x a]; [congruence|]. intros _ H. exact H. Qed.

(** The match reported on a data URI that ends where [s] begins. *)
Lemma data_uri_first (t p s : str) :
  t <> [] -> all_in letter t -> p <> [] -> all_in uri_payload_char p ->
  stops uri_payload_char s ->
  first data_uri_regex (data_uri t p ++ s) [] = Some (s, [(1, p)]).
Proof.
  intros Ht At Hp Ap Hs. unfold data_uri_regex, data_uri, uri_head.
  rewrite <- !app_assoc.
  apply first_cat with (s1 := t ++ lit ";base64," ++ p ++ s) (c1 := []);
    [apply first_lit|].
  apply first_cat with (s1 := lit ";base64," ++ p ++ s) (c1 := []);
    [apply first_plus_cls; [assumption|assumption|reflexivity]|].
  apply first_cat with (s1 := p ++ s) (c1 := []); [apply first_lit|].
  apply first_grp. now apply first_plus_cls.
Qed.

(** No match where the head of a data URI is not. *)
Lemma data_uri_needs_head (pos : nat) (s : str) :
  startswith s uri_head = false -> match_here data_uri_regex pos s = None.
Proof.
  intros H. unfold match_here, data_uri_regex.
  rewrite run_cat_nil; [reflexivity|]. now apply run_lit_mismatch.
Qed.

Lemma findall_skip (r : regex) (w s : str) :
  findall_scan r (length w) (w ++ s) = findall_scan r 0 s.
Proof. induction w as [|x w IH]; [reflexivity|]. exact IH. Qed.

(** The scan passes over a stretch where nothing matches. *)
Lemma findall_scan_pass (r : regex) (s : str) :
  forall a, (forall i, i < length a -> match_here r 0 (skipn i (a ++ s)) = None) ->
            findall_scan r 0 (a ++ s) = findall_scan r 0 s.
Proof.
  induction a as [|x a IH]; intros H; [reflexivity|].
  pose proof (H 0 ltac:(simpl; lia)) as H0. cbn [skipn app] in H0.
  cbn [app findall_scan]. rewrite H0. apply IH.
  intros i Hi. apply (H (S i)). simpl. lia.
Qed.

(** The scan records group 1 of a match and goes on after it. *)
Lemma findall_scan_match (r : regex) (w s g : str) :
  w <> [] -> first r (w ++ s) [] = Some (s, [(1, g)]) ->
  findall_scan r 0 (w ++ s) = g :: findall_scan r 0 s.
Proof.
  intros Hw F. destruct w as [|x w]; [congruence|].
  pose proof (match_here_first r 0 _ F) as M.
  cbn [app] in M |- *. cbn [findall_scan]. rewrite M. cbn [m_groups m_end get].
  cbn [Nat.eqb app]. f_equal.
  replace (pred (0 + (length (x :: w ++ s) - length s))) with (length w)
    by (cbn [length]; rewrite length_app; lia).
  apply findall_skip.
Qed.

Lemma pass_data_uri (a s : str) :
  not_before uri_head (a ++ s) (length a) ->
  findall_scan data_uri_regex 0 (a ++ s) = findall_scan data_uri_regex 0 s.
Proof.
  intros H. apply findall_scan_pass. intros i Hi.
  apply data_uri_needs_head. now apply H.
Qed.

Lemma clean_image_filter (p : str) :
  clean_image p = filter (fun a => negb (is_linebreak a)) p.
Proof.
  unfold clean_image, remove_char, is_linebreak.
  induction p as [|a p IH]; [reflexivity|]. cbn [filter].
  destruct (ascii_eqb a newline); cbn [negb orb filter]; [exact IH|].
  destruct (ascii_eqb a carriage_return); cbn [negb]; now rewrite IH.
Qed.

(** The images of a body with two data URIs. *)
Lemma findall_two_uris (pre mid post t1 p1 t2 p2 : str) :
  t1 <> [] -> all_in letter t1 -> p1 <> [] -> all_in uri_payload_char p1 ->
  t2 <> [] -> all_in letter t2 -> p2 <> [] -> all_in uri_payload_char p2 ->
  mid <> [] -> stops uri_payload_char mid -> stops uri_payload_char post ->
  not_before uri_head (pre ++ data_uri t1 p1 ++ mid ++ data_uri t2 p2 ++ post)
             (length pre) ->
  not_before uri_head (mid ++ data_uri t2 p2 ++ post) (length mid) ->
  not_before uri_head post (length post) ->
  findall data_uri_regex (pre ++ data_uri t1 p1 ++ mid ++ data_uri t2 p2 ++ post)
  = [p1; p2].
Proof.
  intros Ht1 At1 Hp1 Ap1 Ht2 At2 Hp2 Ap2 Hmid Smid Spost Npre Nmid Npost.
  assert (Hu : forall t p, data_uri t p <> []) by (intros t p; discriminate).
  unfold findall. rewrite (pass_data_uri _ _ Npre).
  rewrite (@findall_scan_match data_uri_regex (data_uri t1 p1) _ p1 (Hu _ _));
    [|apply data_uri_first; try assumption; now apply stops_app].
  rewrite (pass_data_uri _ _ Nmid).
  rewrite (@findall_scan_match data_uri_regex (data_uri t2 p2) _ p2 (Hu _ _));
    [|now apply data_uri_first].
  assert (Npost' : not_before uri_head (post ++ []) (length post))
    by now rewrite app_nil_r.
  rewrite <- (app_nil_r post). rewrite (pass_data_uri _ _ Npost'). reflexivity.
Qed.

End Images.

(** *** Claims about inline images *)

(** C4, as the handler has it.  For a body with two data URIs, the payload
    carries exactly two attachments, in order of appearance: each is the
    base64 text of its URI with the line breaks removed.  Nothing is
    decoded. *)
Theorem data_uri_attachments (W : Collaborators) (self : EmailHandler)
        (subject : str) (receivers : list str)
        (pre mid post t1 p1 t2 p2 : str) :
  let body := pre ++ data_uri t1 p1 ++ mid ++ data_uri t2 p2 ++ post in
  t1 <> [] -> all_in letter t1 -> p1 <> [] -> all_in uri_payload_char p1 ->
  t2 <> [] -> all_in letter t2 -> p2 <> [] -> all_in uri_payload_char p2 ->
  mid <> [] -> stops uri_payload_char mid -> stops uri_payload_char post ->
  not_before uri_head body (length pre) ->
  not_before uri_head (mid ++ data_uri t2 p2 ++ post) (length mid) ->
  not_before uri_head post (length post) ->
  dict_get (lit "base64_attachments")
           (build_payload W self subject body receivers)
  = Some (JList [filter (fun a => negb (is_linebreak a)) p1;
                 filter (fun a => negb (is_linebreak a)) p2]).
Proof.
  intros body Ht1 At1 Hp1 Ap1 Ht2 At2 Hp2 Ap2 Hmid Smid Spost Npre Nmid Npost.
  destruct (build_payload_fields W self subject body receivers) as [_ [_ [_ F]]].
  rewrite F. unfold body.
  rewrite (@findall_two_uris pre mid post t1 p1 t2 p2); try assumption.
  cbn [map]. now rewrite !clean_image_filter.
Qed.

Lemma data_uri_attachments_witness :
  dict_get (lit "base64_attachments")
           (build_payload (sample_world (Some two_image_body) (Returned 201%Z))
                          (init sample_config) (lit "hi") two_image_body
                          [lit "+15551234567"])
  = Some (JList [lit "QUJD"; lit "REVG"]).
Proof.
  apply (@data_uri_attachments
           (sample_world (Some two_image_body) (Returned 201%Z))
           (init sample_config) (lit "hi") [lit "+15551234567"]
           (lit "<img src='") (lit "'><img src='") (lit "'>")
           (lit "png") (lit "QUJD") (lit "png") (lit "REV" ++ [newline] ++ lit "G"));
    try discriminate; try (repeat constructor);
    try (apply not_before_check; vm_compute; reflexivity).
Defined.

(** C4 as stated fails: the attachments are the base64 texts, not the bytes
    they decode to. *)
Lemma data_uri_attachments_not_decoded :
  let W := sample_world (Some two_image_body) (Returned 201%Z) in
  let payload :=
    build_payload W (init sample_config) (lit "hi") two_image_body
                  [lit "+15551234567"] in
  dict_get (lit "base64_attachments") payload
  = Some (JList [lit "QUJD"; lit "REVG"]) /\
  map b64decode [lit "QUJD"; lit "REVG"] = [Some (lit "ABC"); Some (lit "DEF")] /\
  dict_get (lit "base64_attachments") payload
  <> Some (JList [lit "ABC"; lit "DEF"]).
Proof.
  intros W payload.
  assert (E : dict_get (lit "base64_attachments") payload
              = Some (JList [lit "QUJD"; lit "REVG"])) by (vm_compute; reflexivity).
  split; [exact E|]. split; [vm_compute; reflexivity|].
  rewrite E. vm_compute. discriminate.
Qed.

(** C5, as the handler has it.  The attachments of the POST are the data
    URIs of the text of the body part and nothing else: no part of the
    message other than that text, and no pattern of the handler, takes part. *)
Theorem attachments_from_body_only (W : Collaborators) (self : EmailHandler)
        (envelope : Envelope) (url : str) (headers : list (str * str))
        (data : dict) :
  In (Post url headers data) (trace (fst (handle_DATA W self envelope))) ->
  dict_get (lit "base64_attachments") data
  = match findall data_uri_regex (body_of W envelope) with
    | [] => None
    | _ :: _ =>
        Some (JList (map clean_image (findall data_uri_regex (body_of W envelope))))
    end.
Proof.
  intros Hin. apply handle_DATA_events in Hin.
  destruct Hin as [[subject [_ Heq]] | [port Heq]]; [|discriminate].
  injection Heq as _ _ ->.
  apply (build_payload_fields W self subject (body_of W envelope)
                              (filter starts_plus (rcpt_tos envelope))).
Qed.

Lemma attachments_from_body_only_witness :
  let W := sample_world (Some two_image_body) (Returned 201%Z) in
  let envelope := with_rcpts [lit "+15551234567"] in
  exists data,
    trace (fst (handle_DATA W (init sample_config) envelope))
    = [Post (lit "http://signal:8080/v2/send") signal_headers data] /\
    dict_get (lit "base64_attachments") data
    = Some (JList [lit "QUJD"; lit "REVG"]).
Proof.
  intros W envelope. eexists. split; [reflexivity|].
  rewrite (@attachments_from_body_only W (init sample_config) envelope
             (lit "http://signal:8080/v2/send") signal_headers _
             (or_introl eq_refl)).
  vm_compute. reflexivity.
Defined.

(** C5 as stated fails: a named PNG part, which the handler's image pattern
    does find in the message, adds nothing to the payload. *)
Lemma png_part_not_extracted :
  let W := sample_world (Some (lit "hello")) (Returned 201%Z) in
  (exists m, search (image_regex (init sample_config)) png_part_content = Some m /\
             group m 1 = Some (lit "QUJD" ++ [newline])) /\
  exists data,
    trace (fst (handle_DATA W (init sample_config) png_part_envelope))
    = [Post (lit "http://signal:8080/v2/send") signal_headers data] /\
    dict_get (lit "base64_attachments") data = None.
Proof.
  intros W. split.
  - eexists. split; vm_compute; reflexivity.
  - eexists. split; vm_compute; reflexivity.
Qed.

(** ** More on DATA: the order of the calls and the relay *)

Section DataMore.

Variable W : Collaborators.
Variable self : EmailHandler.

(** The messaging stage of [handle_DATA], by cases. *)
Lemma handle_DATA_stages (envelope : Envelope) :
  let mails := filter (fun a => negb (starts_plus a)) (rcpt_tos envelope) in
  let relay (t : list event) : M str * Envelope :=
    match mails with
    | [] => ((Returned (lit "250 Message accepted for delivery"), t), envelope)
    | _ :: _ =>
        match int_of_str W (smtp_port (config self)) with
        | Raised e => ((Raised e, t), narrowed envelope)
        | Returned port =>
            ((Returned (send_mail W (smtp_host (config self)) port
                                  (smtp_user (config self))
                                  (smtp_passwd (config self)) (narrowed envelope)),
              t ++ [relay_call self port envelope]),
             narrowed envelope)
        end
    end in
  handle_DATA W self envelope =
  match filter starts_plus (rcpt_tos envelope) with
  | [] => relay []
  | _ :: _ =>
      match header_decode W (get_subject W (content envelope)) with
      | Raised e => ((Raised e, []), envelope)
      | Returned subject =>
          match rest_answer W self envelope subject with
          | Raised e => ((Raised e, [post_call W self envelope subject]), envelope)
          | Returned code =>
              if Z.eqb code 201
              then relay [post_call W self envelope subject]
              else ((Returned (lit "554 Sending signal message has failed"),
                     [post_call W self envelope subject]), envelope)
          end
      end
  end.
Proof.
  cbv zeta. rewrite handle_DATA_unfold. cbv zeta.
  unfold rest_answer, post_call, relay_call, narrowed.
  destruct (filter starts_plus (rcpt_tos envelope)) as [|n ns] eqn:En.
  - unfold ret.
    destruct (filter (fun x => negb (starts_plus x)) (rcpt_tos envelope));
      [reflexivity|].
    destruct (int_of_str W _); reflexivity.
  - rewrite send_signal_unfold.
    destruct (header_decode W _) as [subject|err]; [|reflexivity].
    cbv zeta. destruct (request_post W _ _ _) as [code|err]; [|reflexivity].
    destruct (Z.eqb code 201); [|reflexivity].
    destruct (filter (fun x => negb (starts_plus x)) (rcpt_tos envelope));
      [reflexivity|].
    destruct (int_of_str W _); reflexivity.
Qed.

End DataMore.

(** X1. The calls of a transaction are at most one POST and at most one call to
    the relay, the POST first; the POST carries the first bucket, the relay
    the envelope narrowed to the second. *)
Theorem data_calls_in_order (W : Collaborators) (self : EmailHandler)
        (envelope : Envelope) :
  let calls := trace (fst (handle_DATA W self envelope)) in
  calls = [] \/
  (exists subject, calls = [post_call W self envelope subject]) \/
  (exists port, calls = [relay_call self port envelope]) \/
  (exists subject port,
      calls = [post_call W self envelope subject; relay_call self port envelope]).
Proof.
  cbv zeta. rewrite handle_DATA_stages. cbv zeta.
  destruct (filter starts_plus (rcpt_tos envelope)).
  - destruct (filter (fun a => negb (starts_plus a)) (rcpt_tos envelope));
      [now left|].
    destruct (int_of_str W _) as [port|err]; [|now left].
    right. right. left. now exists port.
  - destruct (header_decode W _) as [subject|err]; [|now left].
    destruct (rest_answer W self envelope subject) as [code|err];
      [|right; left; now exists subject].
    destruct (Z.eqb code 201); [|right; left; now exists subject].
    destruct (filter (fun a => negb (starts_plus a)) (rcpt_tos envelope));
      [right; left; now exists subject|].
    destruct (int_of_str W _) as [port|err]; [|right; left; now exists subject].
    right. right. right. now exists subject, port.
Qed.

(** X2. When the messaging stage lets the transaction go on and an address is
    left for the relay, the answer of [handle_DATA] is the answer of
    [send_mail], as it is; the relay is called once, with the host, user
    and password of the configuration and the narrowed envelope, and that
    envelope is what the transaction leaves behind. *)
Theorem data_relay_verbatim (W : Collaborators) (self : EmailHandler)
        (envelope : Envelope) (port : Z) :
  messaging_passed W self envelope ->
  filter (fun a => negb (starts_plus a)) (rcpt_tos envelope) <> [] ->
  int_of_str W (smtp_port (config self)) = Returned port ->
  result (fst (handle_DATA W self envelope))
  = Returned (send_mail W (smtp_host (config self)) port (smtp_user (config self))
                        (smtp_passwd (config self)) (narrowed envelope)) /\
  filter is_send_mail (trace (fst (handle_DATA W self envelope)))
  = [relay_call self port envelope] /\
  snd (handle_DATA W self envelope) = narrowed envelope.
Proof.
  intros Hpass Hmail Hport. rewrite handle_DATA_stages. cbv zeta.
  destruct (filter (fun a => negb (starts_plus a)) (rcpt_tos envelope))
    as [|m ms]; [congruence|].
  rewrite Hport. destruct Hpass as [-> | [subject [Hd Hr]]].
  - repeat split.
  - destruct (filter starts_plus (rcpt_tos envelope)); [repeat split|].
    rewrite Hd, Hr. repeat split.
Qed.

Lemma data_relay_verbatim_witness :
  let W := sample_world (Some (lit "hello")) (Returned 201%Z) in
  let envelope := with_rcpts [lit "+15551234567"; lit "bob@example.com"] in
  result (fst (handle_DATA W (init sample_config) envelope))
  = Returned (lit "250 OK") /\
  filter is_send_mail (trace (fst (handle_DATA W (init sample_config) envelope)))
  = [SendMail (lit "smtp.example.com") 587 (lit "gateway") (lit "secret")
              (with_rcpts [lit "bob@example.com"])] /\
  snd (handle_DATA W (init sample_config) envelope)
  = with_rcpts [lit "bob@example.com"].
Proof.
  intros W envelope.
  apply (@data_relay_verbatim W (init sample_config) envelope 587%Z).
  - right. exists (lit "hi"). split; reflexivity.
  - discriminate.
  - reflexivity.
Defined.

(** X3. When [int] rejects the configured port, [handle_DATA] raises after the
    message has gone out: the POST has been made, the relay is not called,
    and the envelope is already narrowed. *)
Theorem data_bad_port_after_post (W : Collaborators) (self : EmailHandler)
        (envelope : Envelope) (e : exn) :
  messaging_passed W self envelope ->
  filter (fun a => negb (starts_plus a)) (rcpt_tos envelope) <> [] ->
  int_of_str W (smtp_port (config self)) = Raised e ->
  result (fst (handle_DATA W self envelope)) = Raised e /\
  relay_not_invoked (trace (fst (handle_DATA W self envelope))) /\
  (filter starts_plus (rcpt_tos envelope) <> [] ->
   exists subject,
     trace (fst (handle_DATA W self envelope)) = [post_call W self envelope subject]) /\
  snd (handle_DATA W self envelope) = narrowed envelope.
Proof.
  intros Hpass Hmail Hport. rewrite handle_DATA_stages. cbv zeta.
  destruct (filter (fun a => negb (starts_plus a)) (rcpt_tos envelope))
    as [|m ms]; [congruence|].
  rewrite Hport. destruct Hpass as [-> | [subject [Hd Hr]]].
  - repeat split; [intros ev []|congruence].
  - destruct (filter starts_plus (rcpt_tos envelope)).
    + repeat split; [intros ev []|congruence].
    + rewrite Hd, Hr. repeat split.
      * intros ev [<-|[]]. reflexivity.
      * intros _. now exists subject.
Qed.

Lemma data_bad_port_after_post_witness :
  let W := bad_port_world (Returned 201%Z) in
  let envelope := with_rcpts [lit "+15551234567"; lit "bob@example.com"] in
  result (fst (handle_DATA W (init sample_config) envelope)) = Raised ValueError /\
  relay_not_invoked (trace (fst (handle_DATA W (init sample_config) envelope))) /\
  snd (handle_DATA W (init sample_config) envelope)
  = with_rcpts [lit "bob@example.com"].
Proof.
  intros W envelope.
  destruct (@data_bad_port_after_post W (init sample_config) envelope ValueError)
    as [R [N [_ E]]].
  - right. exists (lit "hi"). split; reflexivity.
  - discriminate.
  - reflexivity.
  - repeat split; assumption.
Defined.

(** X4. Without a recipient starting with [+] nothing is posted, whatever the
    message and the REST endpoint are, and the relay gets every recipient. *)
Theorem data_no_contact_no_post (W : Collaborators) (self : EmailHandler)
        (envelope : Envelope) :
  Forall (fun a => starts_plus a = false) (rcpt_tos envelope) ->
  (forall e, In e (trace (fst (handle_DATA W self envelope))) -> is_post e = false) /\
  (forall host port user passwd relayed,
      In (SendMail host port user passwd relayed)
         (trace (fst (handle_DATA W self envelope))) ->
      rcpt_tos relayed = rcpt_tos envelope).
Proof.
  intros Hall.
  assert (Es : filter starts_plus (rcpt_tos envelope) = []).
  { induction Hall as [|a l Ha _ IH]; [reflexivity|]. simpl. now rewrite Ha. }
  assert (Em : filter (fun a => negb (starts_plus a)) (rcpt_tos envelope)
               = rcpt_tos envelope).
  { clear Es. induction Hall as [|a l Ha _ IH]; [reflexivity|]. simpl.
    rewrite Ha. simpl. now rewrite IH. }
  rewrite handle_DATA_stages. cbv zeta. rewrite Es.
  destruct (filter (fun a => negb (starts_plus a)) (rcpt_tos envelope)) eqn:Ef.
  - split; intros; contradiction.
  - destruct (int_of_str W _) as [port|err].
    + split.
      * intros ev [<-|[]]. reflexivity.
      * intros host p user passwd relayed [Heq|[]].
        unfold relay_call in Heq. injection Heq as _ _ _ _ <-.
        unfold narrowed. cbn [rcpt_tos]. rewrite Ef. exact Em.
    + split; intros; contradiction.
Qed.

Lemma data_no_contact_no_post_witness :
  let W := sample_world (Some (lit "hello")) (Returned 500%Z) in
  let envelope := with_rcpts [lit "bob@example.com"; lit "carol@example.com"] in
  Forall (fun e => is_post e = false)
         (trace (fst (handle_DATA W (init sample_config) envelope))).
Proof.
  intros W envelope. apply Forall_forall.
  apply (proj1 (@data_no_contact_no_post W (init sample_config) envelope
                  ltac:(repeat constructor))).
Defined.

(** X5. A transaction without recipients is accepted; nothing is called and the
    envelope stays as it is. *)
Theorem data_no_recipients (W : Collaborators) (self : EmailHandler)
        (envelope : Envelope) :
  rcpt_tos envelope = [] ->
  handle_DATA W self envelope
  = ((Returned (lit "250 Message accepted for delivery"), []), envelope).
Proof. intros H. rewrite handle_DATA_stages. cbv zeta. now rewrite H. Qed.

Lemma data_no_recipients_witness :
  handle_DATA (sample_world None (Raised ConnectionError)) (init sample_config)
              sample_envelope
  = ((Returned (lit "250 Message accepted for delivery"), []), sample_envelope).
Proof. apply data_no_recipients. reflexivity. Defined.

(** X6. [handle_DATA] never touches the sender or the content, and adds no
    recipient: the envelope afterwards is the one it got or that one
    narrowed to the addresses that do not start with [+]. *)
Theorem data_envelope_afterwards (W : Collaborators) (self : EmailHandler)
        (envelope : Envelope) :
  let after := snd (handle_DATA W self envelope) in
  mail_from after = mail_from envelope /\
  content after = content envelope /\
  (after = envelope \/ after = narrowed envelope) /\
  (forall a, In a (rcpt_tos after) -> In a (rcpt_tos envelope)).
Proof.
  cbv zeta.
  assert (Hn : forall a, In a (rcpt_tos (narrowed envelope)) ->
                         In a (rcpt_tos envelope)).
  { intros a Ha. unfold narrowed in Ha. cbn [rcpt_tos] in Ha.
    apply filter_In in Ha. now destruct Ha. }
  assert (H : snd (handle_DATA W self envelope) = envelope \/
              snd (handle_DATA W self envelope) = narrowed envelope).
  { rewrite handle_DATA_stages. cbv zeta.
    destruct (filter starts_plus (rcpt_tos envelope)).
    - destruct (filter (fun a => negb (starts_plus a)) (rcpt_tos envelope));
        [now left|]. destruct (int_of_str W _); now right.
    - destruct (header_decode W _) as [subject|err]; [|now left].
      destruct (rest_answer W self envelope subject) as [code|err]; [|now left].
      destruct (Z.eqb code 201); [|now left].
      destruct (filter (fun a => negb (starts_plus a)) (rcpt_tos envelope));
        [now left|]. destruct (int_of_str W _); now right. }
  destruct H as [-> | ->]; repeat split; auto.
Qed.


(** ** More on RCPT: what the unanchored pattern lets through *)

Section RcptMore.

Variable cfg : Config.

Lemma receiver_first_any (p ds post : str) (a : ascii) :
  ds <> [] -> all_in digit ds -> p = [] \/ p = ["+"%char] ->
  ascii_eqb a newline = false ->
  first (receiver_regex (init cfg))
        (p ++ ds ++ lit "@signal" ++ a :: lit "localdomain" ++ post) []
  = Some (post, [(1, p ++ ds)]).
Proof.
  intros Hne Hall Hp Ha.
  change (receiver_regex (init cfg))
    with (Cat (Grp 1 (Cat (Opt (Chr "+")) (Plus (Cls digit))))
              (Cat (Lit (lit "@signal")) (Cat Any (Lit (lit "localdomain"))))).
  set (rest := lit "@signal" ++ a :: lit "localdomain" ++ post).
  apply first_cat with (s1 := rest) (c1 := [(1, p ++ ds)]).
  - rewrite app_assoc. apply first_grp. rewrite <- app_assoc.
    apply first_cat with (s1 := ds ++ rest) (c1 := []).
    + destruct Hp as [-> | ->].
      * apply first_opt_skipped. destruct ds as [|d ds]; [congruence|].
        inversion Hall as [|? ? Hd _]; subst. simpl.
        destruct (ascii_eqb d "+") eqn:E; [|reflexivity].
        apply Ascii.eqb_eq in E. subst d. discriminate Hd.
      * apply first_opt_taken. reflexivity.
    + apply first_plus_cls; [assumption..|reflexivity].
  - unfold rest.
    apply first_cat with (s1 := a :: lit "localdomain" ++ post)
                         (c1 := [(1, p ++ ds)]); [apply first_lit|].
    apply first_cat with (s1 := lit "localdomain" ++ post)
                         (c1 := [(1, p ++ ds)]); [|apply first_lit].
    unfold first. cbn [run]. now rewrite Ha.
Qed.

(** No match starts at a character that is neither a digit nor [+]. *)
Lemma receiver_not_here (x : ascii) (s : str) (pos : nat) :
  digit x = false -> ascii_eqb x "+" = false ->
  match_here (receiver_regex (init cfg)) pos (x :: s) = None.
Proof.
  intros Hd Hp. unfold match_here.
  change (receiver_regex (init cfg))
    with (Cat (Grp 1 (Cat (Opt (Chr "+")) (Plus (Cls digit))))
              (Cat (Lit (lit "@signal")) (Cat Any (Lit (lit "localdomain"))))).
  assert (E : run (Cat (Opt (Chr "+")) (Plus (Cls digit))) (x :: s) [] = []).
  { cbn [run]. rewrite Hp. cbn [app flat_map fst snd]. now rewrite Hd. }
  rewrite run_cat. cbn [run] in E |- *. now rewrite E.
Qed.

(** Nor at a [+] that no digit follows. *)
Lemma receiver_not_at_plus (x : ascii) (s : str) (pos : nat) :
  digit x = false ->
  match_here (receiver_regex (init cfg)) pos ("+"%char :: x :: s) = None.
Proof.
  intros Hd. unfold match_here.
  change (receiver_regex (init cfg))
    with (Cat (Grp 1 (Cat (Opt (Chr "+")) (Plus (Cls digit))))
              (Cat (Lit (lit "@signal")) (Cat Any (Lit (lit "localdomain"))))).
  assert (E : run (Cat (Opt (Chr "+")) (Plus (Cls digit))) ("+"%char :: x :: s) []
              = []).
  { cbn [run]. change (ascii_eqb "+" "+") with true.
    cbn [app flat_map fst snd]. rewrite Hd.
    change (digit "+") with false. reflexivity. }
  rewrite run_cat. cbn [run] in E |- *. now rewrite E.
Qed.

(** What [handle_RCPT] does, by the two cases of the search. *)
Lemma handle_RCPT_cases (envelope : Envelope) (address : str) :
  (search (receiver_regex (init cfg)) address = None /\
   handle_RCPT (init cfg) envelope address
   = (lit "250 OK", append_rcpt envelope address)) \/
  (exists m g,
      search (receiver_regex (init cfg)) address = Some m /\
      group m 1 = Some g /\ contact_digits g /\
      handle_RCPT (init cfg) envelope address
      = (lit "250 OK",
         append_rcpt envelope (if starts_plus address then g else "+"%char :: g))).
Proof.
  unfold handle_RCPT.
  destruct (search (receiver_regex (init cfg)) address) as [m|] eqn:Es;
    [right|left; now split].
  pose proof Es as Hm. apply search_from_groups in Hm.
  destruct Hm as [t [st [Hin Eg]]].
  destruct (receiver_groups cfg _ _ Hin) as [g [Est Hg]].
  assert (G : group m 1 = Some g)
    by (unfold group; rewrite Eg, Est; reflexivity).
  exists m, g. rewrite G. repeat split; try assumption.
  unfold starts_plus. now destruct (startswith address (lit "+")).
Qed.

End RcptMore.

(** X8. The dot of the pattern is a wildcard and the pattern is not anchored at
    the end: with any character but a newline between [signal] and
    [localdomain], and with any text after the domain, the address is still
    taken for the contact [+digits]. *)
Theorem rcpt_wildcard_and_suffix (cfg : Config) (envelope : Envelope)
        (ds post : str) (a : ascii) :
  ds <> [] -> all_in digit ds -> ascii_eqb a newline = false ->
  let bare :=
    handle_RCPT (init cfg) envelope
                (ds ++ lit "@signal" ++ a :: lit "localdomain" ++ post) in
  let plus :=
    handle_RCPT (init cfg) envelope
                ("+"%char :: ds ++ lit "@signal" ++ a :: lit "localdomain" ++ post) in
  bare = (lit "250 OK", append_rcpt envelope ("+"%char :: ds)) /\
  plus = (lit "250 OK", append_rcpt envelope ("+"%char :: ds)) /\
  rcpt_tos (snd bare) = rcpt_tos envelope ++ ["+"%char :: ds] /\
  rcpt_tos (snd plus) = rcpt_tos envelope ++ ["+"%char :: ds] /\
  fst bare = lit "250 OK" /\ fst plus = lit "250 OK".
Proof.
  intros Hne Hall Ha bare plus.
  assert (Eb : bare = (lit "250 OK", append_rcpt envelope ("+"%char :: ds))).
  { unfold bare, handle_RCPT, search. rewrite search_from_unfold.
    pose proof (@receiver_first_any cfg [] ds post a Hne Hall
                  (or_introl eq_refl) Ha) as F.
    cbn [app] in F. rewrite (match_here_first _ 0 _ F).
    unfold group. cbn [m_groups get Nat.eqb].
    destruct ds as [|d ds]; [congruence|]. inversion Hall; subst.
    cbn [app]. now rewrite startswith_plus_digit. }
  assert (Ep : plus = (lit "250 OK", append_rcpt envelope ("+"%char :: ds))).
  { unfold plus, handle_RCPT, search. rewrite search_from_unfold.
    pose proof (@receiver_first_any cfg ["+"%char] ds post a Hne Hall
                  (or_intror eq_refl) Ha) as F.
    cbn [app] in F. rewrite (match_here_first _ 0 _ F). reflexivity. }
  rewrite Eb, Ep. repeat split.
Qed.

Lemma rcpt_wildcard_and_suffix_witness :
  let envelope := with_rcpts [lit "bob@example.com"] in
  rcpt_tos (snd (handle_RCPT (init sample_config) envelope
                             (lit "123@signalXlocaldomain.example.org")))
  = [lit "bob@example.com"; lit "+123"] /\
  rcpt_tos (snd (handle_RCPT (init sample_config) envelope
                             (lit "+123@signalXlocaldomain.example.org")))
  = [lit "bob@example.com"; lit "+123"].
Proof.
  intros envelope.
  destruct (@rcpt_wildcard_and_suffix sample_config envelope
              (lit "123") (lit ".example.org") "X"%char)
    as [_ [_ [Rb [Rp _]]]].
  - discriminate.
  - repeat constructor.
  - reflexivity.
  - split; [exact Rb|exact Rp].
Defined.

(** X9. An address that starts with [+] but has something else between the
    [+] and the digits: the search finds the digits further on, no [+] is
    added because the address starts with one, and the entry is the bare
    digits, which DATA then counts among the mail addresses. *)
Theorem rcpt_plus_then_junk (cfg : Config) (envelope : Envelope)
        (x : ascii) (ds : str) :
  ds <> [] -> all_in digit ds -> digit x = false -> ascii_eqb x "+" = false ->
  let accepted :=
    snd (handle_RCPT (init cfg) envelope
                     ("+"%char :: x :: ds ++ lit "@signal.localdomain")) in
  fst (handle_RCPT (init cfg) envelope
                   ("+"%char :: x :: ds ++ lit "@signal.localdomain"))
  = lit "250 OK" /\
  accepted = append_rcpt envelope ds /\
  In ds (snd (partition_rcpts (rcpt_tos accepted))) /\
  ~ In ds (fst (partition_rcpts (rcpt_tos accepted))).
Proof.
  intros Hne Hall Hd Hp accepted.
  assert (E : handle_RCPT (init cfg) envelope
                          ("+"%char :: x :: ds ++ lit "@signal.localdomain")
              = (lit "250 OK", append_rcpt envelope ds)).
  { unfold handle_RCPT, search. rewrite search_from_unfold.
    rewrite receiver_not_at_plus by exact Hd.
    rewrite search_from_unfold. rewrite receiver_not_here by assumption.
    rewrite search_from_unfold.
    pose proof (@receiver_first cfg [] ds [] Hne Hall (or_introl eq_refl)) as F.
    cbn [app] in F. rewrite app_nil_r in F.
    rewrite (match_here_first _ 2 _ F). reflexivity. }
  assert (Hs : starts_plus ds = false).
  { destruct ds as [|d ds]; [congruence|]. inversion Hall; subst.
    now apply startswith_plus_digit. }
  unfold accepted. rewrite E. cbn [fst snd]. split; [reflexivity|].
  split; [reflexivity|]. cbn [append_rcpt rcpt_tos].
  rewrite partition_rcpts_filter. cbn [fst snd]. split.
  - apply filter_In. split; [apply in_or_app; right; now left|now rewrite Hs].
  - intros H. apply filter_In in H. destruct H as [_ H]. congruence.
Qed.

Lemma rcpt_plus_then_junk_witness :
  snd (handle_RCPT (init sample_config) sample_envelope
                   (lit "+x123@signal.localdomain"))
  = append_rcpt sample_envelope (lit "123").
Proof.
  apply (@rcpt_plus_then_junk sample_config sample_envelope "x"%char (lit "123")).
  - discriminate.
  - repeat constructor.
  - reflexivity.
  - reflexivity.
Defined.

(** X10. An address with one more character before [+digits]: the group already
    holds the [+], the address does not start with one, and the entry gets
    two. *)
Theorem rcpt_doubled_plus (cfg : Config) (envelope : Envelope)
        (x : ascii) (ds : str) :
  ds <> [] -> all_in digit ds -> digit x = false -> ascii_eqb x "+" = false ->
  let answer :=
    handle_RCPT (init cfg) envelope
                (x :: "+"%char :: ds ++ lit "@signal.localdomain") in
  answer = (lit "250 OK", append_rcpt envelope ("+"%char :: "+"%char :: ds)) /\
  fst answer = lit "250 OK" /\
  rcpt_tos (snd answer) = rcpt_tos envelope ++ ["+"%char :: "+"%char :: ds].
Proof.
  intros Hne Hall Hd Hp answer.
  assert (E : answer
              = (lit "250 OK",
                 append_rcpt envelope ("+"%char :: "+"%char :: ds))).
  { unfold answer, handle_RCPT, search. rewrite search_from_unfold.
    rewrite receiver_not_here by assumption.
    rewrite search_from_unfold.
    pose proof (@receiver_first cfg ["+"%char] ds [] Hne Hall (or_intror eq_refl))
      as F.
    cbn [app] in F. rewrite app_nil_r in F.
    rewrite (match_here_first _ 1 _ F).
    unfold group. cbn [m_groups get Nat.eqb].
    replace (startswith (x :: "+"%char :: ds ++ lit "@signal.localdomain")
                        (lit "+"))
      with false; [reflexivity|].
    cbn [lit list_ascii_of_string startswith]. unfold ascii_eqb in *.
    rewrite Ascii.eqb_sym, Hp. reflexivity. }
  rewrite E. repeat split.
Qed.

Lemma rcpt_doubled_plus_witness :
  let envelope := with_rcpts [lit "bob@example.com"] in
  fst (handle_RCPT (init sample_config) envelope (lit "x+123@signal.localdomain"))
  = lit "250 OK" /\
  rcpt_tos (snd (handle_RCPT (init sample_config) envelope
                             (lit "x+123@signal.localdomain")))
  = [lit "bob@example.com"; lit "++123"].
Proof.
  intros envelope.
  destruct (@rcpt_doubled_plus sample_config envelope "x"%char (lit "123"))
    as [_ [F R]].
  - discriminate.
  - repeat constructor.
  - reflexivity.
  - reflexivity.
  - split; [exact F|exact R].
Defined.

(** X11. What a match puts on the list is never the address: it is the digits of
    the contact behind at most two [+], and nothing of the domain. *)
Theorem rcpt_matched_entry_shape (cfg : Config) (envelope : Envelope)
        (address : str) :
  occurs (receiver_regex (init cfg)) address ->
  exists k ds,
    k <= 2 /\ ds <> [] /\ all_in digit ds /\
    handle_RCPT (init cfg) envelope address
    = (lit "250 OK", append_rcpt envelope (repeat "+"%char k ++ ds)) /\
    fst (handle_RCPT (init cfg) envelope address) = lit "250 OK" /\
    rcpt_tos (snd (handle_RCPT (init cfg) envelope address))
    = rcpt_tos envelope ++ [repeat "+"%char k ++ ds] /\
    repeat "+"%char k ++ ds <> address /\
    ~ In address (skipn (length (rcpt_tos envelope))
                        (rcpt_tos (snd (handle_RCPT (init cfg) envelope address)))).
Proof.
  intros Hocc.
  destruct (handle_RCPT_cases cfg envelope address)
    as [[Hn _] | [m [g [Hs [Hg [[ds [Hne [Hall Hw]]] E]]]]]].
  { apply search_None in Hn. contradiction. }
  assert (Hat : forall k, In "@"%char (repeat "+"%char k ++ ds) -> False).
  { intros k H. apply in_app_or in H. destruct H as [H|H].
    - apply repeat_spec in H. discriminate H.
    - unfold all_in in Hall. rewrite Forall_forall in Hall.
      specialize (Hall _ H). discriminate Hall. }
  assert (Hin : In "@"%char address).
  { destruct Hocc as [pre [w [post [-> Mw]]]].
    apply receiver_words in Mw. destruct Mw as [g' [a [_ [_ ->]]]].
    apply in_or_app. right. apply in_or_app. left.
    apply in_or_app. right. now left. }
  assert (Hk : exists k, k <= 2 /\
                (if starts_plus address then g else "+"%char :: g)
                = repeat "+"%char k ++ ds).
  { destruct Hw as [-> | ->]; destruct (starts_plus address).
    - exists 0. split; [lia|reflexivity].
    - exists 1. split; [lia|reflexivity].
    - exists 1. split; [lia|reflexivity].
    - exists 2. split; [lia|reflexivity]. }
  destruct Hk as [k [Hk Ek]]. exists k, ds. rewrite Ek in E.
  assert (Hneq : repeat "+"%char k ++ ds <> address).
  { intros Heq. apply (Hat k). now rewrite Heq. }
  rewrite E. cbn [fst snd append_rcpt rcpt_tos].
  split; [exact Hk|]. split; [exact Hne|]. split; [exact Hall|].
  split; [reflexivity|]. split; [reflexivity|]. split; [reflexivity|].
  split; [exact Hneq|].
  rewrite skipn_app, Nat.sub_diag, skipn_all. cbn [app skipn].
  intros [H|[]]. now apply Hneq.
Qed.

Lemma rcpt_matched_entry_shape_witness :
  let envelope := with_rcpts [lit "bob@example.com"] in
  exists k ds,
    k <= 2 /\ ds <> [] /\ all_in digit ds /\
    rcpt_tos (snd (handle_RCPT (init sample_config) envelope
                               (lit "x+123@signal.localdomain")))
    = [lit "bob@example.com"; repeat "+"%char k ++ ds] /\
    repeat "+"%char k ++ ds <> lit "x+123@signal.localdomain".
Proof.
  intros envelope.
  destruct (@rcpt_matched_entry_shape sample_config envelope
              (lit "x+123@signal.localdomain"))
    as [k [ds [Hk [Hne [Hall [_ [_ [R [N _]]]]]]]]].
  - exists (lit "x"), (lit "+123@signal.localdomain"), [].
    split; [reflexivity|].
    apply receiver_words. exists (lit "+123"), "."%char.
    split; [|split; reflexivity].
    exists (lit "123"). split; [discriminate|]. split; [repeat constructor|].
    now right.
  - exists k, ds. repeat split; assumption.
Defined.

Lemma rcpt_accepts (cfg : Config) (envelope : Envelope) (address : str) :
  exists entry, handle_RCPT (init cfg) envelope address
                = (lit "250 OK", append_rcpt envelope entry).
Proof.
  destruct (handle_RCPT_cases cfg envelope address)
    as [[_ E] | [m [g [_ [_ [_ E]]]]]]; rewrite E; eexists; reflexivity.
Qed.

(** X12. A run of RCPT commands: every one is answered [250 OK], the recipient
    list grows by one entry for each, at its end and in the order of the
    commands, and the sender and the content stay as they are. *)
Theorem rcpt_all_appends (cfg : Config) (addresses : list str) :
  forall envelope,
    let after := rcpt_all (init cfg) envelope addresses in
    (exists entries,
        rcpt_tos after = rcpt_tos envelope ++ entries /\
        length entries = length addresses) /\
    mail_from after = mail_from envelope /\
    content after = content envelope /\
    Forall (fun answer => answer = lit "250 OK")
           (rcpt_answers (init cfg) envelope addresses).
Proof.
  induction addresses as [|a l IH]; intros envelope; cbv zeta.
  - cbn [rcpt_all fold_left rcpt_answers]. repeat split; [|constructor].
    exists []. now rewrite app_nil_r.
  - destruct (rcpt_accepts cfg envelope a) as [entry E].
    specialize (IH (append_rcpt envelope entry)). cbv zeta in IH.
    destruct IH as [[entries [Er El]] [Hf [Hc Ha]]].
    unfold rcpt_all in *. cbn [fold_left rcpt_answers]. rewrite E. cbn [fst snd].
    repeat split.
    + exists (entry :: entries). rewrite Er. cbn [append_rcpt rcpt_tos length].
      rewrite <- app_assoc. split; [reflexivity|now rewrite El].
    + exact Hf.
    + exact Hc.
    + constructor; [reflexivity|exact Ha].
Qed.

(** X13. From RCPT to DATA: a transaction whose one recipient is
    [digits@signal.localdomain], with a 201 from the endpoint, is accepted
    after one POST whose recipients are just [+digits]. *)
Theorem session_contact_delivered (W : Collaborators) (cfg : Config)
        (envelope : Envelope) (ds subject : str) :
  rcpt_tos envelope = [] -> ds <> [] -> all_in digit ds ->
  let accepted :=
    rcpt_all (init cfg) envelope [ds ++ lit "@signal.localdomain"] in
  header_decode W (get_subject W (content envelope)) = Returned subject ->
  rest_answer W (init cfg) accepted subject = Returned 201%Z ->
  rcpt_tos accepted = ["+"%char :: ds] /\
  fst (handle_DATA W (init cfg) accepted)
  = (Returned (lit "250 Message accepted for delivery"),
     [post_call W (init cfg) accepted subject]) /\
  exists payload,
    post_call W (init cfg) accepted subject
    = Post (signal_url W (init cfg)) signal_headers payload /\
    dict_get (lit "recipients") payload = Some (JList ["+"%char :: ds]).
Proof.
  intros Hempty Hne Hall accepted Hd Hr.
  assert (Ea : accepted = append_rcpt envelope ("+"%char :: ds)).
  { unfold accepted, rcpt_all. cbn [fold_left]. unfold handle_RCPT.
    destruct (search_receiver cfg (p:=[]) Hne Hall (or_introl eq_refl))
      as [m [Hs Hg]].
    cbn [app] in Hs. rewrite Hs, Hg.
    destruct ds as [|d ds]; [congruence|]. inversion Hall; subst.
    cbn [app]. now rewrite startswith_plus_digit. }
  assert (Er : rcpt_tos accepted = ["+"%char :: ds])
    by (rewrite Ea; cbn [append_rcpt rcpt_tos]; now rewrite Hempty).
  assert (Ec : content accepted = content envelope) by now rewrite Ea.
  split; [exact Er|]. split.
  - rewrite handle_DATA_stages. cbv zeta. rewrite Er.
    cbn [filter]. change (starts_plus ("+"%char :: ds)) with true.
    cbn [negb]. rewrite Ec, Hd, Hr. reflexivity.
  - eexists. split; [reflexivity|].
    destruct (build_payload_fields W (init cfg) subject (body_of W accepted)
                (filter starts_plus (rcpt_tos accepted))) as [_ [_ [Fr _]]].
    rewrite Fr, Er. reflexivity.
Qed.

Lemma session_contact_delivered_witness :
  let W := sample_world (Some (lit "hello")) (Returned 201%Z) in
  let accepted :=
    rcpt_all (init sample_config) sample_envelope [lit "123@signal.localdomain"] in
  rcpt_tos accepted = [lit "+123"] /\
  fst (handle_DATA W (init sample_config) accepted)
  = (Returned (lit "250 Message accepted for delivery"),
     [post_call W (init sample_config) accepted (lit "hi")]).
Proof.
  intros W accepted.
  destruct (@session_contact_delivered W sample_config sample_envelope
              (lit "123") (lit "hi")) as [A [B _]].
  - reflexivity.
  - discriminate.
  - repeat constructor.
  - reflexivity.
  - reflexivity.
  - split; [exact A|exact B].
Defined.

(** ** More on the payload *)

Lemma findall_scan_in (r : regex) (s : str) :
  forall k g, In g (findall_scan r k s) ->
              exists t st l, run r t [] = st :: l /\
                             g = match get 1 (snd st) with
                                 | Some x => x
                                 | None => []
                                 end.
Proof.
  assert (Here : forall t m g,
             match_here r 0 t = Some m ->
             In g (match get 1 (m_groups m) with Some x => [x] | None => [[]] end) ->
             exists t st l, run r t [] = st :: l /\
                            g = match get 1 (snd st) with
                                | Some x => x
                                | None => []
                                end).
  { intros t m g Hm Hg. unfold match_here in Hm.
    destruct (run r t []) as [|[s1 c1] l] eqn:E; [discriminate|].
    injection Hm as <-. cbn [m_groups] in Hg.
    exists t, (s1, c1), l. split; [exact E|]. cbn [snd].
    destruct (get 1 c1); now destruct Hg as [<-|[]]. }
  induction s as [|x s IH]; intros k g Hin.
  - destruct k; [|contradiction]. cbn [findall_scan] in Hin.
    destruct (match_here r 0 []) eqn:E; [|contradiction].
    rewrite app_nil_r in Hin. exact (Here _ _ _ E Hin).
  - destruct k as [|k]; cbn [findall_scan] in Hin; [|exact (IH _ _ Hin)].
    destruct (match_here r 0 (x :: s)) eqn:E; [|exact (IH _ _ Hin)].
    apply in_app_or in Hin. destruct Hin as [Hin|Hin];
      [exact (Here _ _ _ E Hin)|exact (IH _ _ Hin)].
Qed.

(** Group 1 of a match of the data-URI pattern: a payload that is not
    empty. *)
Lemma data_uri_groups (t : str) (st : state) :
  In st (run data_uri_regex t []) ->
  exists g, snd st = [(1, g)] /\ g <> [] /\ all_in uri_payload_char g.
Proof.
  unfold data_uri_regex. intros Hin.
  rewrite run_cat in Hin. apply in_flat_map_state in Hin.
  destruct Hin as [x1 [H1 Hin]].
  pose proof (run_keeps_caps (Lit (lit "data:image/")) eq_refl _ _ _ H1) as C1.
  rewrite run_cat in Hin. apply in_flat_map_state in Hin.
  destruct Hin as [x2 [H2 Hin]].
  pose proof (run_keeps_caps (Plus (Cls letter)) eq_refl _ _ _ H2) as C2.
  rewrite run_cat in Hin. apply in_flat_map_state in Hin.
  destruct Hin as [x3 [H3 Hin]].
  pose proof (run_keeps_caps (Lit (lit ";base64,")) eq_refl _ _ _ H3) as C3.
  destruct (run_grp _ _ _ _ _ Hin) as [w [c' [_ [Mw [Ec Hc]]]]].
  pose proof (run_keeps_caps (Plus (Cls uri_payload_char)) eq_refl _ _ _ Hc) as C4.
  cbn [snd] in C4. destruct (matches_plus_cls Mw) as [Hne Hall].
  exists w. split; [|now split]. rewrite Ec, C4, C3, C2, C1. reflexivity.
Qed.

Lemma attachment_char_of_payload (c : ascii) :
  uri_payload_char c = true -> is_linebreak c = false -> attachment_char c = true.
Proof.
  unfold uri_payload_char, attachment_char, is_linebreak. intros H N.
  apply orb_false_iff in N. destruct N as [N1 N2]. rewrite N1, N2 in H.
  now rewrite !orb_false_r in H.
Qed.

(** X14. Whatever the body, when the payload has attachments there is at least
    one, and each is written in the characters [a-zA-Z0-9+/=] only: no line
    break is sent. *)
Theorem attachments_in_base64_alphabet (W : Collaborators) (self : EmailHandler)
        (subject body : str) (receivers atts : list str) :
  dict_get (lit "base64_attachments")
           (build_payload W self subject body receivers) = Some (JList atts) ->
  atts <> [] /\ Forall (all_in attachment_char) atts.
Proof.
  destruct (build_payload_fields W self subject body receivers) as [_ [_ [_ F]]].
  rewrite F. destruct (findall data_uri_regex body) as [|g l] eqn:E;
    [discriminate|].
  rewrite <- E. intros [= <-]. split; [rewrite E; discriminate|].
  apply Forall_forall. intros a Ha. apply in_map_iff in Ha.
  destruct Ha as [g' [<- Hg']].
  apply findall_scan_in in Hg'. destruct Hg' as [t [st [l' [Er ->]]]].
  assert (Hin : In st (run data_uri_regex t [])) by (rewrite Er; now left).
  destruct (data_uri_groups _ _ Hin) as [w [-> [_ Hall]]].
  cbn [get Nat.eqb]. rewrite clean_image_filter.
  apply Forall_forall. intros c Hc. apply filter_In in Hc.
  destruct Hc as [Hc Hn]. apply negb_true_iff in Hn.
  unfold all_in in Hall. rewrite Forall_forall in Hall.
  now apply attachment_char_of_payload; [apply Hall|].
Qed.

Lemma attachments_in_base64_alphabet_witness :
  [lit "QUJD"; lit "REVG"] <> [] /\
  Forall (all_in attachment_char) [lit "QUJD"; lit "REVG"].
Proof.
  apply (@attachments_in_base64_alphabet
           (sample_world (Some two_image_body) (Returned 201%Z))
           (init sample_config) (lit "hi") two_image_body [lit "+15551234567"]).
  vm_compute. reflexivity.
Defined.

(** X15. The sender id that is sent holds no backslash, keeps every other
    character in its place, and is the configured one when that has none. *)
Theorem payload_number_without_backslash (W : Collaborators) (self : EmailHandler)
        (subject body : str) (receivers : list str) :
  exists number,
    dict_get (lit "number") (build_payload W self subject body receivers)
    = Some (JStr number) /\
    ~ In backslash number /\
    (forall c, c <> backslash ->
               filter (ascii_eqb c) number
               = filter (ascii_eqb c) (sender_number (config self))) /\
    (~ In backslash (sender_number (config self)) ->
     number = sender_number (config self)).
Proof.
  destruct (build_payload_fields W self subject body receivers) as [_ [F _]].
  exists (remove_char backslash (sender_number (config self))).
  split; [exact F|]. unfold remove_char.
  generalize (sender_number (config self)) as s. intros s. split; [|split].
  - intros H. apply filter_In in H. destruct H as [_ H].
    unfold ascii_eqb in H. now rewrite Ascii.eqb_refl in H.
  - intros c Hc. induction s as [|x s IH]; [reflexivity|]. cbn [filter].
    destruct (ascii_eqb x backslash) eqn:E; cbn [negb filter].
    + apply Ascii.eqb_eq in E. subst x.
      destruct (ascii_eqb c backslash) eqn:E'; [|exact IH].
      apply Ascii.eqb_eq in E'. contradiction.
    + now rewrite IH.
  - intros H. induction s as [|x s IH]; [reflexivity|]. cbn [filter].
    destruct (ascii_eqb x backslash) eqn:E.
    + apply Ascii.eqb_eq in E. subst x. exfalso. apply H. now left.
    + cbn [negb]. f_equal. apply IH. intros Hin. apply H. now right.
Qed.

(** ** More on the body *)

Lemma find_unfold (s sub : str) :
  find s sub =
  if startswith s sub then Some 0
  else match s with
       | [] => None
       | _ :: s' => option_map S (find s' sub)
       end.
Proof. destruct s; reflexivity. Qed.

Lemma startswith_true (sep : str) :
  forall s, startswith s sep = true -> exists post, s = sep ++ post.
Proof.
  induction sep as [|a sep IH]; intros s H; [now exists s|].
  destruct s as [|x s]; [discriminate|]. cbn [startswith] in H.
  apply andb_true_iff in H. destruct H as [Ha Hs].
  apply Ascii.eqb_eq in Ha. subst x.
  destruct (IH _ Hs) as [post ->]. now exists post.
Qed.

(** [sub in s] holds exactly when [sub] is a substring of [s]. *)
Lemma contains_iff (sep s : str) :
  contains sep s = true <-> exists pre post, s = pre ++ sep ++ post.
Proof.
  unfold contains. split.
  - assert (H : forall i, find s sep = Some i ->
                          exists pre post, s = pre ++ sep ++ post).
    { induction s as [|x s IH]; intros i; rewrite find_unfold.
      - destruct (startswith [] sep) eqn:E; [|discriminate].
        intros _. destruct (startswith_true _ _ E) as [post ->].
        now exists [], post.
      - destruct (startswith (x :: s) sep) eqn:E.
        + intros _. destruct (startswith_true _ _ E) as [post ->].
          now exists [], post.
        + destruct (find s sep) as [j|]; [|discriminate].
          intros _. destruct (IH j eq_refl) as [pre [post ->]].
          now exists (x :: pre), post. }
    destruct (find s sep) as [i|]; [|discriminate]. intros _. now apply (H i).
  - intros [pre [post ->]]. induction pre as [|x pre IH].
    + cbn [app]. rewrite find_unfold, startswith_app. reflexivity.
    + cbn [app]. rewrite find_unfold.
      destruct (startswith (x :: pre ++ sep ++ post) sep); [reflexivity|].
      destruct (find (pre ++ sep ++ post) sep); [reflexivity|discriminate].
Qed.

(** X16. A body in which the exact marker does not occur is sent as it is,
    markup included: nothing is converted. *)
Theorem body_without_marker_verbatim (W : Collaborators) (subject body : str) :
  (forall pre post, body <> pre ++ doctype ++ post) ->
  message_text W subject body = subject ++ [carriage_return; newline] ++ body.
Proof.
  intros H. unfold message_text, body_text.
  destruct (contains doctype body) eqn:E.
  - apply contains_iff in E. destruct E as [pre [post E]]. now apply H in E.
  - now rewrite <- app_assoc.
Qed.

Lemma body_without_marker_verbatim_witness :
  message_text (sample_world None (Returned 201%Z)) (lit "hi")
               (lit "<!DOCTYPE html><html><body><p>Hello</p></body></html>")
  = lit "hi" ++ [carriage_return; newline]
    ++ lit "<!DOCTYPE html><html><body><p>Hello</p></body></html>".
Proof.
  apply body_without_marker_verbatim. intros pre post E.
  assert (C : contains doctype
                (lit "<!DOCTYPE html><html><body><p>Hello</p></body></html>")
              = true) by (apply contains_iff; now exists pre, post).
  vm_compute in C. discriminate C.
Defined.

(** ** The subject line *)

Section Header.

Variable W : Collaborators.

Lemma header_decode_rounds (header : option str) :
  header_decode W header =
  match decode_header W header with
  | Raised e => Raised e
  | Returned chunks => fold_left (header_round W) chunks (Returned [])
  end.
Proof. reflexivity. Qed.

Lemma round_text (h t : str) (p : chunk * option str) :
  chunk_text W p = Returned t -> header_round W (Returned h) p = Returned (h ++ t).
Proof.
  unfold chunk_text, header_round. destruct (fst p); [now intros [= ->]|].
  now intros ->.
Qed.

Lemma round_raise (h : str) (e : exn) (p : chunk * option str) :
  chunk_text W p = Raised e -> header_round W (Returned h) p = Raised e.
Proof.
  unfold chunk_text, header_round. destruct (fst p); [discriminate|]. now intros ->.
Qed.

Lemma rounds_raised (e : exn) (chunks : list (chunk * option str)) :
  fold_left (header_round W) chunks (Raised e) = Raised e.
Proof. induction chunks as [|p l IH]; [reflexivity|exact IH]. Qed.

Lemma rounds_texts (chunks : list (chunk * option str)) (texts : list str) :
  Forall2 (fun p t => chunk_text W p = Returned t) chunks texts ->
  forall h rest, fold_left (header_round W) (chunks ++ rest) (Returned h)
                 = fold_left (header_round W) rest (Returned (h ++ concat texts)).
Proof.
  induction 1 as [|p t chunks texts Hp _ IH]; intros h rest.
  - cbn [concat app fold_left]. now rewrite app_nil_r.
  - cbn [app fold_left concat]. rewrite (round_text h _ Hp), IH.
    now rewrite app_assoc.
Qed.

End Header.

(** X17. The decoded subject is the texts of the chunks one after the other, in
    the order [decode_header] gave them; a chunk of bytes without a declared
    encoding is decoded as [us-ascii]. *)
Theorem header_decode_concat (W : Collaborators) (header : option str)
        (chunks : list (chunk * option str)) (texts : list str) :
  decode_header W header = Returned chunks ->
  Forall2 (fun p t => chunk_text W p = Returned t) chunks texts ->
  header_decode W header = Returned (concat texts).
Proof.
  intros Hd Hall. rewrite header_decode_rounds, Hd.
  pose proof (rounds_texts W Hall [] []) as R. rewrite app_nil_r in R.
  exact R.
Qed.

Lemma header_decode_concat_witness :
  header_decode
    (header_world [(Text (lit "Re: "), None);
                   (Bytes (lit "caf"), Some (lit "utf-8"));
                   (Bytes (lit "e"), None)])
    (Some (lit "x"))
  = Returned (lit "Re: cafe").
Proof.
  apply (@header_decode_concat
           (header_world [(Text (lit "Re: "), None);
                          (Bytes (lit "caf"), Some (lit "utf-8"));
                          (Bytes (lit "e"), None)])
           (Some (lit "x"))
           [(Text (lit "Re: "), None);
            (Bytes (lit "caf"), Some (lit "utf-8"));
            (Bytes (lit "e"), None)]
           [lit "Re: "; lit "caf"; lit "e"]).
  - reflexivity.
  - repeat constructor.
Defined.

(** X18. The first chunk that cannot be decoded ends [header_decode] with its
    exception, whatever comes after it. *)
Theorem header_decode_first_failure (W : Collaborators) (header : option str)
        (before after : list (chunk * option str)) (p : chunk * option str)
        (texts : list str) (e : exn) :
  decode_header W header = Returned (before ++ p :: after) ->
  Forall2 (fun q t => chunk_text W q = Returned t) before texts ->
  chunk_text W p = Raised e ->
  header_decode W header = Raised e.
Proof.
  intros Hd Hall Hp. rewrite header_decode_rounds, Hd.
  pose proof (rounds_texts W Hall [] (p :: after)) as R.
  etransitivity; [exact R|]. cbn [fold_left].
  transitivity (fold_left (header_round W) after (Raised e));
    [f_equal; now apply round_raise|apply rounds_raised].
Qed.

Lemma header_decode_first_failure_witness :
  header_decode
    (header_world [(Text (lit "Re: "), None);
                   (Bytes (lit "caf"), Some (lit "klingon"));
                   (Text (lit "e"), None)])
    (Some (lit "x"))
  = Raised LookupError.
Proof.
  apply (@header_decode_first_failure
           (header_world [(Text (lit "Re: "), None);
                          (Bytes (lit "caf"), Some (lit "klingon"));
                          (Text (lit "e"), None)])
           (Some (lit "x")) [(Text (lit "Re: "), None)] [(Text (lit "e"), None)]
           (Bytes (lit "caf"), Some (lit "klingon")) [lit "Re: "] LookupError).
  - reflexivity.
  - repeat constructor.
  - reflexivity.
Defined.

(** ** Start-up *)

(** X19. When one of the five required variables is not set, [amain] ends in
    [sys.exit] with its message, whatever else is set. *)
Theorem amain_missing_variable (environ : environment) (key : str) :
  In key required_variables -> getenv environ key = None ->
  amain environ = Exit (lit "Please set the required environment variables.").
Proof.
  unfold required_variables, amain. cbv zeta.
  intros [<-|[<-|[<-|[<-|[<-|[]]]]]] H;
    repeat match goal with
           | |- context [getenv environ ?k] =>
               lazymatch type of H with
               | getenv environ k = None => rewrite H
               | _ => destruct (getenv environ k)
               end
           end; reflexivity.
Qed.

Lemma amain_missing_variable_witness :
  amain [(lit "SIGNAL_REST_URL", lit "http://signal:8080/");
         (lit "SENDER_NUMBER", lit "+4915112345678");
         (lit "SMTP_HOST", lit "smtp.example.com");
         (lit "SMTP_PORT", lit "25");
         (lit "SMTP_PASSWORD", lit "secret")]
  = Exit (lit "Please set the required environment variables.").
Proof.
  apply (@amain_missing_variable _ (lit "SMTP_USER")).
  - vm_compute. tauto.
  - reflexivity.
Defined.

(** X20. When the five required variables are set, the handler is built on
    their values; the port is the value of [SMTP_PORT], or [587] when that
    is not set. *)
Theorem amain_serving (environ : environment) :
  (forall key, In key required_variables -> getenv environ key <> None) ->
  exists cfg,
    amain environ = Serving (init cfg) /\
    getenv environ (lit "SIGNAL_REST_URL") = Some (signal_rest_url cfg) /\
    getenv environ (lit "SENDER_NUMBER") = Some (sender_number cfg) /\
    getenv environ (lit "SMTP_HOST") = Some (smtp_host cfg) /\
    getenv environ (lit "SMTP_USER") = Some (smtp_user cfg) /\
    getenv environ (lit "SMTP_PASSWORD") = Some (smtp_passwd cfg) /\
    (forall port, getenv environ (lit "SMTP_PORT") = Some port ->
                  smtp_port cfg = port) /\
    (getenv environ (lit "SMTP_PORT") = None -> smtp_port cfg = lit "587").
Proof.
  intros H. unfold amain. cbv zeta.
  assert (H1 := H (lit "SIGNAL_REST_URL") ltac:(vm_compute; tauto)).
  assert (H2 := H (lit "SENDER_NUMBER") ltac:(vm_compute; tauto)).
  assert (H3 := H (lit "SMTP_HOST") ltac:(vm_compute; tauto)).
  assert (H4 := H (lit "SMTP_USER") ltac:(vm_compute; tauto)).
  assert (H5 := H (lit "SMTP_PASSWORD") ltac:(vm_compute; tauto)).
  destruct (getenv environ (lit "SIGNAL_REST_URL")) as [url|]; [|congruence].
  destruct (getenv environ (lit "SENDER_NUMBER")) as [number|]; [|congruence].
  destruct (getenv environ (lit "SMTP_HOST")) as [host|]; [|congruence].
  destruct (getenv environ (lit "SMTP_USER")) as [user|]; [|congruence].
  destruct (getenv environ (lit "SMTP_PASSWORD")) as [passwd|]; [|congruence].
  eexists. split; [reflexivity|]. cbn [signal_rest_url sender_number smtp_host
                                       smtp_user smtp_passwd smtp_port].
  repeat split.
  - intros port ->. reflexivity.
  - intros ->. reflexivity.
Qed.

Lemma amain_serving_witness :
  exists cfg,
    amain sample_environ = Serving (init cfg) /\
    smtp_host cfg = lit "smtp.example.com" /\ smtp_port cfg = lit "587".
Proof.
  destruct (@amain_serving sample_environ) as [cfg [E [_ [_ [Hh [_ [_ [_ Hp]]]]]]]].
  - intros key Hk. vm_compute in Hk.
    destruct Hk as [<-|[<-|[<-|[<-|[<-|[]]]]]]; discriminate.
  - exists cfg. split; [exact E|]. split.
    + change (getenv sample_environ (lit "SMTP_HOST"))
        with (Some (lit "smtp.example.com")) in Hh.
      injection Hh as Hh. symmetry. exact Hh.
    + apply Hp. reflexivity.
Defined.

(** ** The message and the payload, in terms of the text alone *)

Lemma not_before_of_first (sep noise rest : str) :
  marker_first sep noise rest ->
  not_before sep (noise ++ sep ++ rest) (length noise).
Proof.
  intros H i Hi.
  destruct (startswith (skipn i (noise ++ sep ++ rest)) sep) eqn:E;
    [|reflexivity].
  destruct (startswith_true _ _ E) as [post Ep].
  pose proof (firstn_skipn i (noise ++ sep ++ rest)) as Es. rewrite Ep in Es.
  symmetry in Es. apply H in Es.
  pose proof (firstn_le_length i (noise ++ sep ++ rest)). lia.
Qed.

Lemma first_of_not_before (sep noise rest : str) :
  not_before sep (noise ++ sep ++ rest) (length noise) ->
  marker_first sep noise rest.
Proof.
  intros H pre post E.
  destruct (le_lt_dec (length noise) (length pre)) as [Hle|Hlt]; [exact Hle|].
  specialize (H (length pre) Hlt). rewrite E in H.
  rewrite skipn_app, Nat.sub_diag, skipn_all in H. cbn [app skipn] in H.
  rewrite startswith_app in H. discriminate H.
Qed.


Lemma body_text_from_marker (W : Collaborators) (noise rest : str) :
  marker_first doctype noise rest ->
  body_text W (noise ++ doctype ++ rest) = html2text W (doctype ++ rest).
Proof.
  intros H. apply not_before_of_first in H. unfold body_text.
  destruct (@split1_last_first doctype rest noise H) as [-> ->]. reflexivity.
Qed.


(** C6, as the handler has it.  When the body holds the HTML marker after
    some preamble, what is sent after the subject line is what [html2text]
    makes of the text from the first marker on: nothing of the preamble
    takes part.  The handler takes no tag away itself. *)
Theorem html_preamble_dropped (W : Collaborators) (subject noise rest : str) :
  marker_first doctype noise rest ->
  body_text W (noise ++ doctype ++ rest) = html2text W (doctype ++ rest) /\
  body_text W (noise ++ doctype ++ rest) = body_text W (doctype ++ rest) /\
  message_text W subject (noise ++ doctype ++ rest)
  = subject ++ [carriage_return; newline] ++ html2text W (doctype ++ rest).
Proof.
  intros H. pose proof (body_text_from_marker W H) as E.
  split; [exact E|]. split.
  - rewrite E. symmetry. apply (@body_text_from_marker W [] rest).
    intros pre post _. apply Nat.le_0_l.
  - unfold message_text. now rewrite E, <- app_assoc.
Qed.

Lemma html_preamble_dropped_witness :
  let W := sample_world None (Returned 201%Z) in
  let noise := lit "--boundary42 Content-Type: text/html " in
  let rest := lit "PUBLIC><html><body><p>Hello <b>world</b></p></body></html>" in
  body_text W (noise ++ doctype ++ rest) = lit "Hello world" /\
  message_text W (lit "hi") (noise ++ doctype ++ rest)
  = lit "hi" ++ [carriage_return; newline] ++ lit "Hello world".
Proof.
  intros W noise rest.
  destruct (@html_preamble_dropped W (lit "hi") noise rest) as [E [_ M]].
  - apply first_of_not_before. apply not_before_check. vm_compute. reflexivity.
  - split; [rewrite E|rewrite M]; reflexivity.
Defined.

(** C6 as stated fails where the converter leaves angle brackets, as
    [html2text] does for a link that is its own text: the body that is sent
    then holds [<https://example.com>]. *)
Lemma html_autolink_not_tag_free :
  let W := autolink_world in
  let body := lit "--b42 text/html " ++ autolink_page in
  contains doctype body = true /\
  body_text W body = lit "<https://example.com>" ++ [newline; newline] /\
  ~ tag_free (body_text W body).
Proof.
  intros W body.
  assert (E : body_text W body = lit "<https://example.com>" ++ [newline; newline])
    by (vm_compute; reflexivity).
  split; [vm_compute; reflexivity|]. split; [exact E|].
  rewrite E. intros H. apply H.
  exists [], (lit "https://example.com"), [newline; newline]. reflexivity.
Qed.


